(** * WebQx automated merge-conflict resolution

    A shallow embedding of [scripts/conflict-resolution.py]: the filename
    rules that pick a resolution strategy, the recursive merge of two parsed
    JSON documents, and the [ConflictResolver] methods that drive git.

    Layout: the definitions come first (text helpers, JSON values and the
    merge on them, the same merge on a store of Python objects, the resolver
    over an abstract git and file system), the lemmas and theorems follow. *)

From Stdlib Require Import ZArith Bool SpecFloat DecimalString.
From Stdlib Require Import Ascii.
From Stdlib Require String.
From stdpp Require Import gmap strings list fin_maps.

Local Open Scope Z_scope.

(** ** Python [str] methods used by the script

    Paths and file contents are Rocq strings. [git diff --name-only] quotes
    every path with a byte outside ASCII (core.quotePath), so the characters
    the filename rules look at are ASCII; [lower_char] is [str.lower] on
    those. *)

Definition lower_char (c : ascii) : ascii :=
  let n := Ascii.nat_of_ascii c in
  if (Nat.leb 65 n && Nat.leb n 90)%bool then Ascii.ascii_of_nat (n + 32) else c.

(** [s.lower()] *)
Fixpoint lower (s : string) : string :=
  match s with
  | EmptyString => EmptyString
  | String c rest => String (lower_char c) (lower rest)
  end.

(** [s.endswith(suffix)] *)
Fixpoint endswith (s suffix : string) : bool :=
  if String.eqb s suffix then true
  else match s with
       | EmptyString => false
       | String _ rest => endswith rest suffix
       end.

(** [s.startswith(prefix)] *)
Fixpoint startswith (s prefix : string) {struct prefix} : bool :=
  match prefix, s with
  | EmptyString, _ => true
  | String _ _, EmptyString => false
  | String c prefix', String c' s' => (Ascii.eqb c c' && startswith s' prefix')%bool
  end.

(** [sub in s] *)
Fixpoint contains (s sub : string) : bool :=
  if startswith s sub then true
  else match s with
       | EmptyString => false
       | String _ rest => contains rest sub
       end.

(** The ASCII characters for which [str.isspace] holds. *)
Definition is_space (c : ascii) : bool :=
  let n := Ascii.nat_of_ascii c in
  ((Nat.leb 9 n && Nat.leb n 13) || (Nat.leb 28 n && Nat.leb n 32))%bool.

Fixpoint lstrip (s : string) : string :=
  match s with
  | EmptyString => EmptyString
  | String c rest => if is_space c then lstrip rest else s
  end.

Definition rstrip (s : string) : string := String.rev (lstrip (String.rev s)).

(** [s.strip()] *)
Definition strip (s : string) : string := rstrip (lstrip s).

Definition newline : ascii := Ascii.ascii_of_nat 10.

(** [s.split('\n')]: never empty, [''.split('\n') == ['']]. *)
Fixpoint split_lines (s : string) : list string :=
  match s with
  | EmptyString => [EmptyString]
  | String c rest =>
      if Ascii.eqb c newline then EmptyString :: split_lines rest
      else match split_lines rest with
           | [] => [String c EmptyString]
           | line :: lines => String c line :: lines
           end
  end.

(** A Python string is falsy exactly when it is empty. *)
Definition truthy (s : string) : bool :=
  match s with EmptyString => false | String _ _ => true end.

(** [os.path.join(a, b)] on POSIX. *)
Definition path_join (a b : string) : string :=
  if startswith b "/" then b
  else if (negb (truthy a) || endswith a "/")%bool then a +:+ b
  else a +:+ "/" +:+ b.

(** [str(n)] for a non-negative [int], as the f-strings print counts. *)
Definition str_of_nat (n : nat) : string := NilZero.string_of_uint (Nat.to_uint n).

(** The part of a path after its last ['/'] (the whole path when it has
    none): the "final segment" the specification speaks of. The script has
    no such function; the theorems about documentation files use it. *)
Fixpoint final_segment (path : string) : string :=
  match path with
  | EmptyString => EmptyString
  | String c rest =>
      if contains rest "/" then final_segment rest
      else if Ascii.eqb c "/" then rest
      else path
  end.

(** ** JSON documents as [json.loads] returns them

    A Python [dict] keeps its keys in insertion order and holds every key
    once: it is an association list whose keys are pairwise distinct
    ([wf_json] below). *)

Unset Elimination Schemes.
Inductive json : Type :=
| JNull
| JBool (b : bool)
| JInt (z : Z)
| JFloat (f : spec_float)
| JStr (s : string)
| JList (elems : list json)
| JDict (items : list (string * json)).
Set Elimination Schemes.

Abbreviation dict := (list (string * json)).

(** [isinstance(v, dict)] *)
Definition is_dict (v : json) : bool :=
  match v with JDict _ => true | _ => false end.

(** The [dict] operations the merge uses, on the items of a mapping in
    insertion order. They are the same for a mapping of JSON values and for
    a mapping of object references (the store model further down). *)
Section dict_operations.
Context {V : Type}.

(** [d.get(key)]: the value [d[key]] when [key in d]. *)
Fixpoint dict_get (d : list (string * V)) (key : string) : option V :=
  match d with
  | [] => None
  | (k, v) :: rest => if String.eqb k key then Some v else dict_get rest key
  end.

(** [key in d] *)
Definition dict_has (d : list (string * V)) (key : string) : bool :=
  match dict_get d key with Some _ => true | None => false end.

(** [d[key] = value]: an existing key keeps its place, a new key goes
    last. *)
Fixpoint dict_set (d : list (string * V)) (key : string) (value : V)
    : list (string * V) :=
  match d with
  | [] => [(key, value)]
  | (k, v) :: rest =>
      if String.eqb k key then (k, value) :: rest
      else (k, v) :: dict_set rest key value
  end.
End dict_operations.

Definition keys (d : dict) : list string := map fst d.

(** Every mapping of the document holds each key once. *)
Fixpoint wf_json (v : json) : bool :=
  match v with
  | JList elems => forallb wf_json elems
  | JDict items =>
      (bool_decide (NoDup (map fst items))
       && forallb (fun kv => wf_json (snd kv)) items)%bool
  | _ => true
  end.

(** The body of the two merge loops,
    [[
      if key not in src:
          result[key] = value
      elif isinstance(src[key], dict) and isinstance(value, dict):
          result[key] = self._merge_dict_recursive(src[key], value)
    ]]
    where [src] is [result] itself in [_merge_dict_recursive] and
    [main_data] in [resolve_json_conflict]. [rec sub value] is the recursive
    call, made only when [value] is a mapping. *)
Definition merge_item (rec : dict -> json -> dict)
    (src result : dict) (key : string) (value : json) : dict :=
  if negb (dict_has src key) then dict_set result key value
  else match dict_get src key, value with
       | Some (JDict sub), JDict _ => dict_set result key (JDict (rec sub value))
       | _, _ => result
       end.

(** [_merge_dict_recursive(dict1, dict2)], with [dict2] passed as the JSON
    value [JDict dict2] so that the recursion is structural in it. *)
Fixpoint merge_into (dict1 : dict) (v2 : json) {struct v2} : dict :=
  match v2 with
  | JDict dict2 =>
      fold_left (fun result '(key, value) =>
                   merge_item merge_into result result key value)
                dict2 dict1
  | _ => dict1
  end.

Definition _merge_dict_recursive (dict1 dict2 : dict) : dict :=
  merge_into dict1 (JDict dict2).

(** Lines 100-111 of [resolve_json_conflict]: what is written back for the
    two parsed documents. [main_data.copy()] is a shallow copy, the same
    value; a non-mapping [main_data] is kept as it is. *)
Definition merge_documents (main_data head_data : json) : json :=
  let merged_data := main_data in
  match main_data, head_data with
  | JDict main_items, JDict head_items =>
      JDict (fold_left (fun merged '(key, value) =>
                          merge_item merge_into main_items merged key value)
                       head_items main_items)
  | _, _ => merged_data
  end.

(** Following a path of keys through nested mappings: [descend d [k1; k2]]
    is [d[k1][k2]] when [d[k1]] and [d[k1][k2]] are mappings. *)
Fixpoint descend (d : dict) (path : list string) : option dict :=
  match path with
  | [] => Some d
  | k :: rest =>
      match dict_get d k with
      | Some (JDict sub) => descend sub rest
      | _ => None
      end
  end.

(** What the merge leaves at a key held by both sides. *)
Definition merged_value (v1 v2 : json) : json :=
  match v1, v2 with
  | JDict sub1, JDict sub2 => JDict (_merge_dict_recursive sub1 sub2)
  | _, _ => v1
  end.

(** The two documents of the first end-to-end scenario of the
    specification, and of its second one. *)
Definition scenario1_current : dict :=
  [("app", JDict [("port", JInt 3000)]);
   ("database", JDict [("host", JStr "localhost")])].

Definition scenario1_incoming : dict :=
  [("app", JDict [("port", JInt 3000); ("debug", JBool true)]);
   ("database", JDict [("host", JStr "localhost"); ("ssl", JBool true)]);
   ("features", JDict [("logging", JBool true)])].

Definition scenario2_current : dict :=
  [("version", JStr "1.0.1"); ("engines", JDict [("node", JStr ">=16")])].

Definition scenario2_incoming : dict :=
  [("version", JStr "1.1.0"); ("scripts", JDict [("start", JStr "x")])].

(** ** The merge on Python objects

    [json.loads] builds mutable objects: a [dict] or a [list] lives in the
    store and is held by reference, so two mappings can share a value and an
    assignment [d[key] = v] changes [d] for everyone who holds it. The
    methods are embedded a second time over that store, to state what they
    write to. *)

Abbreviation loc := nat.

Inductive val : Type :=
| VNone
| VBool (b : bool)
| VInt (z : Z)
| VFloat (f : spec_float)
| VStr (s : string)
| VRef (l : loc).

Inductive obj : Type :=
| ODict (items : list (string * val))
| OList (elems : list val).

Abbreviation heap := (gmap loc obj).

(** A run on the store returns a value and the new store, stops on an
    operation Python would raise on ([Stuck]), or runs out of fuel. *)
Inductive run (A : Type) : Type :=
| Done (a : A) (h : heap)
| Stuck
| OutOfFuel.
Arguments Done {A} a h.
Arguments Stuck {A}.
Arguments OutOfFuel {A}.

Definition Py (A : Type) : Type := heap -> run A.

Definition py_ret {A} (a : A) : Py A := fun h => Done a h.

Definition py_bind {A B} (m : Py A) (k : A -> Py B) : Py B :=
  fun h => match m h with
           | Done a h' => k a h'
           | Stuck => Stuck
           | OutOfFuel => OutOfFuel
           end.

Definition py_stuck {A} : Py A := fun _ => Stuck.

Definition py_out_of_fuel {A} : Py A := fun _ => OutOfFuel.

Declare Scope py_scope.
Notation "x <- m ;; k" := (py_bind m (fun x => k))
  (at level 100, m at next level, right associativity, only parsing) : py_scope.
Notation "m ;;; k" := (py_bind m (fun _ => k))
  (at level 100, right associativity, only parsing) : py_scope.
Delimit Scope py_scope with py.

(** [{...}]: a new mapping object at an unused location. *)
Definition new_dict (items : list (string * val)) : Py loc :=
  fun h => let l := fresh (dom h) in Done l (<[l := ODict items]> h).

(** The items of the mapping at [d]; anything else there is a type error. *)
Definition dict_items (d : loc) : Py (list (string * val)) :=
  fun h => match h !! d with
           | Some (ODict items) => Done items h
           | _ => Stuck
           end.

(** [d.copy()]: a new mapping holding the same values (a shallow copy). *)
Definition dict_copy (d : loc) : Py loc :=
  (items <- dict_items d ;; new_dict items)%py.

(** [len(d)] *)
Definition dict_len (d : loc) : Py nat :=
  (items <- dict_items d ;; py_ret (length items))%py.

(** One step of the iterator of [d.items()], created when [d] had [size]
    items: it reads [d] as it is now, raises when the size has changed, and
    yields the item at position [i]. *)
Definition item_at (d : loc) (size i : nat) : Py (string * val) :=
  (items <- dict_items d ;;
   if Nat.eqb (length items) size then
     match items !! i with
     | Some kv => py_ret kv
     | None => py_stuck
     end
   else py_stuck)%py.

(** [key in d] *)
Definition py_in (key : string) (d : loc) : Py bool :=
  (items <- dict_items d ;; py_ret (dict_has items key))%py.

(** [d[key]], a [KeyError] when the key is absent. *)
Definition getitem (d : loc) (key : string) : Py val :=
  (items <- dict_items d ;;
   match dict_get items key with
   | Some v => py_ret v
   | None => py_stuck
   end)%py.

(** [d[key] = value]: the object at [d] is updated in place. *)
Definition setitem (d : loc) (key : string) (value : val) : Py unit :=
  fun h => match h !! d with
           | Some (ODict items) => Done tt (<[d := ODict (dict_set items key value)]> h)
           | _ => Stuck
           end.

(** [isinstance(v, dict)] *)
Definition isinstance_dict (v : val) : Py bool :=
  fun h => Done (match v with
                 | VRef l => match h !! l with Some (ODict _) => true | _ => false end
                 | _ => false
                 end) h.

(** [for x in xs: body(x)] *)
Fixpoint for_each {A} (xs : list A) (body : A -> Py unit) : Py unit :=
  match xs with
  | [] => py_ret tt
  | x :: rest => (body x ;;; for_each rest body)%py
  end.

(** [for key, value in d.items(): body(key, value)] *)
Definition for_items (d : loc) (body : string -> val -> Py unit) : Py unit :=
  (size <- dict_len d ;;
   for_each (seq 0 size) (fun i => kv <- item_at d size i ;; body (fst kv) (snd kv)))%py.

(** The loop body of [merge_item], on objects. *)
Definition merge_item_h (rec : loc -> loc -> Py loc)
    (src result : loc) (key : string) (value : val) : Py unit :=
  (present <- py_in key src ;;
   if negb present then setitem result key value
   else
     current <- getitem src key ;;
     is_cur <- isinstance_dict current ;;
     is_val <- isinstance_dict value ;;
     if (is_cur && is_val)%bool then
       match current, value with
       | VRef sub1, VRef sub2 =>
           merged <- rec sub1 sub2 ;; setitem result key (VRef merged)
       | _, _ => py_stuck
       end
     else py_ret tt)%py.

(** [_merge_dict_recursive(dict1, dict2)] on objects; [fuel] bounds the
    depth of the recursion. *)
Fixpoint merge_dict_recursive_h (fuel : nat) (dict1 dict2 : loc) : Py loc :=
  match fuel with
  | O => py_out_of_fuel
  | S fuel' =>
      (result <- dict_copy dict1 ;;
       for_items dict2 (fun key value =>
         merge_item_h (merge_dict_recursive_h fuel') result result key value) ;;;
       py_ret result)%py
  end.

(** Lines 100-111 of [resolve_json_conflict] on objects. *)
Definition merge_documents_h (fuel : nat) (main_data head_data : val) : Py val :=
  (main_is_dict <- isinstance_dict main_data ;;
   merged_data <- (if main_is_dict then
                     match main_data with
                     | VRef l => copy <- dict_copy l ;; py_ret (VRef copy)
                     | _ => py_stuck
                     end
                   else py_ret main_data) ;;
   head_is_dict <- isinstance_dict head_data ;;
   if (main_is_dict && head_is_dict)%bool then
     match main_data, head_data, merged_data with
     | VRef main_loc, VRef head_loc, VRef merged_loc =>
         for_items head_loc (fun key value =>
           merge_item_h (merge_dict_recursive_h fuel) main_loc merged_loc key value) ;;;
         py_ret merged_data
     | _, _, _ => py_stuck
     end
   else py_ret merged_data)%py.

(** [repr h j v]: in the store [h], the value [v] is the document [j]. *)
Unset Elimination Schemes.
Inductive repr (h : heap) : json -> val -> Prop :=
| repr_null : repr h JNull VNone
| repr_bool b : repr h (JBool b) (VBool b)
| repr_int z : repr h (JInt z) (VInt z)
| repr_float f : repr h (JFloat f) (VFloat f)
| repr_str s : repr h (JStr s) (VStr s)
| repr_list l elems velems :
    h !! l = Some (OList velems) ->
    Forall2 (repr h) elems velems ->
    repr h (JList elems) (VRef l)
| repr_dict l items vitems :
    h !! l = Some (ODict vitems) ->
    Forall2 (fun kj kv => fst kj = fst kv /\ repr h (snd kj) (snd kv)) items vitems ->
    repr h (JDict items) (VRef l).
Set Elimination Schemes.

(** The nesting depth of mappings in a document. *)
Fixpoint depth (j : json) : nat :=
  match j with
  | JDict items => S (fold_right (fun kv d => Nat.max (depth (snd kv)) d) O items)
  | _ => O
  end.

(** [item_repr h (k, j) (k', v)]: the same key, and [v] is [j] in [h]. *)
Definition item_repr (h : heap) (kj : string * json) (kv : string * val) : Prop :=
  fst kj = fst kv /\ repr h (snd kj) (snd kv).

(** What a call of the recursive merge does on a store [h] whose part
    [base] holds the two mappings as the documents [j1] and [j2]: it
    returns a new mapping, changes no object of [h], and the result is the
    pure merge of the documents, represented with [base] and objects that
    are new. *)
Definition merge_returns (fuel : nat) (rec : loc -> loc -> Py loc) : Prop :=
  forall (base h : heap) (d1 d2 : loc) (j1 j2 : dict),
    (depth (JDict j2) <= fuel)%nat ->
    base ⊆ h ->
    repr base (JDict j1) (VRef d1) ->
    repr base (JDict j2) (VRef d2) ->
    exists r h' base',
      rec d1 d2 h = Done r h'
      /\ h ⊆ h'
      /\ h !! r = None
      /\ base ⊆ base'
      /\ base' ⊆ h'
      /\ (forall l, is_Some (h !! l) -> base' !! l = base !! l)
      /\ repr base' (JDict (_merge_dict_recursive j1 j2)) (VRef r).

(** The accumulator of a merge loop after one more item: the loop of
    [_merge_dict_recursive] tests the accumulator itself ([None]), the loop
    of [resolve_json_conflict] tests [main_data]. *)
Definition loop_step (main_items : option dict) (acc : dict) (kv : string * json)
    : dict :=
  merge_item merge_into (default acc main_items) acc (fst kv) (snd kv).

(** Where a merge loop reads: the mapping it also writes, or another one,
    which holds the document [main_items]. *)
Definition src_ok (base h : heap) (src result : loc) (main_items : option dict) : Prop :=
  match main_items with
  | None => src = result
  | Some mj =>
      src <> result
      /\ exists vmain, h !! src = Some (ODict vmain)
                       /\ Forall2 (item_repr base) mj vmain
  end.

(** A store with a current and an incoming document that share nothing,
    and one in which both documents hold the same mapping object. *)
Definition example_store : heap :=
  <[1%nat := ODict [("a", VRef 2%nat); ("v", VStr "1.0.1")]]>
  (<[2%nat := ODict [("x", VInt 1)]]>
  (<[3%nat := ODict [("a", VRef 4%nat); ("v", VStr "1.1.0"); ("b", VRef 5%nat)]]>
  (<[4%nat := ODict [("y", VInt 5)]]>
  (<[5%nat := OList [VInt 7]]> ∅)))).





Definition run_value {A} (r : run A) : option A :=
  match r with Done a _ => Some a | _ => None end.

Definition run_lookup {A} (r : run A) (l : loc) : option obj :=
  match r with Done _ h => h !! l | _ => None end.

(** ** The strategy chosen for a conflicted path

    [resolve_all_conflicts] has no function for it: the strategy is the
    branch its [if]/[elif] chain takes (lines 175-184). *)

Inductive Strategy : Type :=
| PreserveIncoming
| StructuredMerge
| PreferCurrent.

(** [filepath.lower().endswith('readme.md')] *)
Definition is_readme (filepath : string) : bool :=
  endswith (lower filepath) "readme.md".

(** [filepath.endswith('.json') or 'config' in filepath.lower()] *)
Definition is_json_or_config (filepath : string) : bool :=
  (endswith filepath ".json" || contains (lower filepath) "config")%bool.

Definition classify (filepath : string) : Strategy :=
  if is_readme filepath then PreserveIncoming
  else if is_json_or_config filepath then StructuredMerge
  else PreferCurrent.

(** ** The resolver

    Git and the file system are outside the script: [Host] is what the
    script can observe of them. Every theorem holds for every host. *)

(** [subprocess.CompletedProcess] *)
Record CompletedProcess : Type := {
  returncode : Z;
  stdout : string;
  stderr : string
}.

Class Host : Type := {
  (** the state of the repository, the index and the working tree *)
  world : Type;
  (** [subprocess.run(cmd, capture_output=True, text=True, cwd=cwd)] *)
  run_git : list string -> option string -> world -> CompletedProcess * world;
  (** [with open(path, 'w', encoding='utf-8') as f: f.write(content)];
      [Some msg] is an [OSError] *)
  write_file : string -> string -> world -> option string * world;
  (** [json.loads(text)]; [inl msg] is a [JSONDecodeError] *)
  json_loads : string -> string + json;
  (** [json.dumps(data, indent=2, ensure_ascii=False)] *)
  json_dumps : json -> string
}.

(** The exceptions the script meets. [SystemExit] is not an [Exception]. *)
Inductive exn : Type :=
| RuntimeError (msg : string)
| OSError (msg : string)
| JSONDecodeError (msg : string)
| SystemExit (code : Z).

Definition is_Exception (e : exn) : bool :=
  match e with SystemExit _ => false | _ => true end.

(** [str(e)] *)
Definition str_exn (e : exn) : string :=
  match e with
  | RuntimeError msg | OSError msg | JSONDecodeError msg => msg
  | SystemExit code => EmptyString
  end.

(** What the script did to the outside, in order. *)
Inductive event : Type :=
| Git (cmd : list string) (cwd : option string)
| WriteFile (path content : string).

Section resolver.
Context `{Host}.

Record state : Type := {
  st_world : world;
  st_printed : list string;      (* one entry per [print] call *)
  st_trace : list event;
  st_conflicts : list string     (* [self.conflicts] *)
}.

(** A computation either returns or raises, and always leaves a state. *)
Definition M (A : Type) : Type := state -> (exn + A) * state.

Definition ret {A} (a : A) : M A := fun st => (inr a, st).

Definition bind {A B} (m : M A) (k : A -> M B) : M B :=
  fun st => match m st with
            | (inr a, st') => k a st'
            | (inl e, st') => (inl e, st')
            end.

Definition raise {A} (e : exn) : M A := fun st => (inl e, st).

(** [try: body  except Exception as e: handler(e)] *)
Definition try_except {A} (body : M A) (handler : exn -> M A) : M A :=
  fun st => match body st with
            | (inl e, st') =>
                if is_Exception e then handler e st' else (inl e, st')
            | r => r
            end.

Declare Scope res_scope.
Notation "x <- m ;; k" := (bind m (fun x => k))
  (at level 100, m at next level, right associativity, only parsing) : res_scope.
Notation "m ;;; k" := (bind m (fun _ => k))
  (at level 100, right associativity, only parsing) : res_scope.
Local Open Scope res_scope.

Definition print (line : string) : M unit :=
  fun st => (inr tt, {| st_world := st_world st;
                        st_printed := st_printed st ++ [line];
                        st_trace := st_trace st;
                        st_conflicts := st_conflicts st |}).

Definition subprocess_run (cmd : list string) (cwd : option string)
    : M CompletedProcess :=
  fun st => let (result, w) := run_git cmd cwd (st_world st) in
            (inr result, {| st_world := w;
                            st_printed := st_printed st;
                            st_trace := st_trace st ++ [Git cmd cwd];
                            st_conflicts := st_conflicts st |}).

Definition open_write (path content : string) : M unit :=
  fun st => let (err, w) := write_file path content (st_world st) in
            (match err with Some msg => inl (OSError msg) | None => inr tt end,
             {| st_world := w;
                st_printed := st_printed st;
                st_trace := st_trace st ++ [WriteFile path content];
                st_conflicts := st_conflicts st |}).

Definition set_conflicts (conflicts : list string) : M unit :=
  fun st => (inr tt, {| st_world := st_world st;
                        st_printed := st_printed st;
                        st_trace := st_trace st;
                        st_conflicts := conflicts |}).

Definition loads (text : string) : M json :=
  match json_loads text with
  | inl msg => raise (JSONDecodeError msg)
  | inr data => ret data
  end.

(** [sys.exit(code)] *)
Definition sys_exit {A} (code : Z) : M A := raise (SystemExit code).

(** [_get_repo_root]: [check=True] raises on a non-zero exit, and the
    handler turns that into a [RuntimeError]. *)
Definition _get_repo_root : M string :=
  result <- subprocess_run ["git"; "rev-parse"; "--show-toplevel"] None ;;
  if Z.eqb (returncode result) 0 then ret (strip (stdout result))
  else raise (RuntimeError "Not in a git repository").

(** [ConflictResolver()]: the object is its [repo_root]; [conflicts] is in
    the state. *)
Definition ConflictResolver : M string :=
  repo_root <- _get_repo_root ;;
  set_conflicts [] ;;;
  ret repo_root.

Definition _run_git_command (repo_root : string) (cmd : list string)
    : M CompletedProcess :=
  subprocess_run cmd (Some repo_root).

Definition detect_conflicts (repo_root : string) : M (list string) :=
  result <- _run_git_command repo_root
              ["git"; "diff"; "--name-only"; "--diff-filter=U"] ;;
  if Z.eqb (returncode result) 0 then
    let conflicts :=
      map strip (List.filter (fun f => truthy (strip f))
                             (split_lines (stdout result))) in
    set_conflicts conflicts ;;;
    ret conflicts
  else ret [].

Definition resolve_readme_conflict (repo_root filepath : string) : M bool :=
  if negb (endswith (lower filepath) "readme.md") then ret false
  else
    print ("Resolving README.md conflict: " +:+ filepath) ;;;
    result <- _run_git_command repo_root ["git"; "show"; "MERGE_HEAD:" +:+ filepath] ;;
    if Z.eqb (returncode result) 0 then
      let source_content := stdout result in
      let full_path := path_join repo_root filepath in
      open_write full_path source_content ;;;
      _run_git_command repo_root ["git"; "add"; filepath] ;;;
      print ("✓ Preserved README.md from source branch: " +:+ filepath) ;;;
      ret true
    else ret false.

Definition resolve_json_conflict (repo_root filepath : string) : M bool :=
  if negb (endswith filepath ".json" || contains (lower filepath) "config")
  then ret false
  else
    print ("Resolving JSON/config conflict: " +:+ filepath) ;;;
    try_except
      (main_result <- _run_git_command repo_root ["git"; "show"; "HEAD:" +:+ filepath] ;;
       head_result <- _run_git_command repo_root ["git"; "show"; "MERGE_HEAD:" +:+ filepath] ;;
       if (negb (Z.eqb (returncode main_result) 0)
           || negb (Z.eqb (returncode head_result) 0))%bool
       then ret false
       else
         main_data <- loads (stdout main_result) ;;
         head_data <- loads (stdout head_result) ;;
         let merged_data := merge_documents main_data head_data in
         let full_path := path_join repo_root filepath in
         open_write full_path (json_dumps merged_data +:+ String newline EmptyString) ;;;
         _run_git_command repo_root ["git"; "add"; filepath] ;;;
         print ("✓ Intelligently merged JSON/config file: " +:+ filepath) ;;;
         ret true)
      (fun e =>
         print ("✗ Failed to merge JSON file " +:+ filepath +:+ ": " +:+ str_exn e) ;;;
         ret false).

Definition resolve_default_conflict (repo_root filepath : string) : M bool :=
  print ("Resolving conflict using main branch preference: " +:+ filepath) ;;;
  result <- _run_git_command repo_root ["git"; "show"; "HEAD:" +:+ filepath] ;;
  if Z.eqb (returncode result) 0 then
    let main_content := stdout result in
    let full_path := path_join repo_root filepath in
    open_write full_path main_content ;;;
    _run_git_command repo_root ["git"; "add"; filepath] ;;;
    print ("✓ Resolved using main branch content: " +:+ filepath) ;;;
    ret true
  else ret false.

(** Lines 172-184: the rule chosen for one path, then the default when
    the rule did not resolve it. *)
Definition resolve_file (repo_root filepath : string) : M bool :=
  resolved <- (if endswith (lower filepath) "readme.md" then
                 resolve_readme_conflict repo_root filepath
               else if (endswith filepath ".json"
                        || contains (lower filepath) "config")%bool then
                 resolve_json_conflict repo_root filepath
               else ret false) ;;
  if negb resolved then resolve_default_conflict repo_root filepath
  else ret resolved.

(** The method the [if]/[elif] chain calls for the strategy of the path. *)
Definition strategy_for (repo_root filepath : string) : M bool :=
  match classify filepath with
  | PreserveIncoming => resolve_readme_conflict repo_root filepath
  | StructuredMerge => resolve_json_conflict repo_root filepath
  | PreferCurrent => ret false
  end.

(** The [for filepath in conflicts] loop, carrying [resolved_count]. *)
Fixpoint resolve_loop (repo_root : string) (conflicts : list string)
    (resolved_count : nat) : M nat :=
  match conflicts with
  | [] => ret resolved_count
  | filepath :: rest =>
      resolved <- resolve_file repo_root filepath ;;
      resolved_count <- (if resolved then ret (S resolved_count)
                         else print ("✗ Failed to resolve conflict: " +:+ filepath) ;;;
                              ret resolved_count) ;;
      resolve_loop repo_root rest resolved_count
  end.

Fixpoint print_each (render : string -> string) (lines : list string) : M unit :=
  match lines with
  | [] => ret tt
  | line :: rest => print (render line) ;;; print_each render rest
  end.

Definition resolve_all_conflicts (repo_root : string) : M bool :=
  conflicts <- detect_conflicts repo_root ;;
  match conflicts with
  | [] => print "No merge conflicts detected." ;;; ret true
  | _ :: _ =>
      print ("Found " +:+ str_of_nat (length conflicts) +:+ " conflict(s) to resolve:") ;;;
      print_each (fun conflict => "  - " +:+ conflict) conflicts ;;;
      resolved_count <- resolve_loop repo_root conflicts O ;;
      print (String newline "Resolved " +:+ str_of_nat resolved_count +:+ "/"
             +:+ str_of_nat (length conflicts) +:+ " conflicts.") ;;;
      ret (Nat.eqb resolved_count (length conflicts))
  end.

Definition commit_resolution (repo_root message : string) : M bool :=
  result <- _run_git_command repo_root ["git"; "diff"; "--cached"; "--name-only"] ;;
  if negb (truthy (strip (stdout result))) then
    print "No changes to commit." ;;; ret true
  else
    commit_result <- _run_git_command repo_root ["git"; "commit"; "-m"; message] ;;
    if Z.eqb (returncode commit_result) 0 then
      print ("✓ Committed resolved conflicts: " +:+ message) ;;; ret true
    else
      print ("✗ Failed to commit: " +:+ stderr commit_result) ;;; ret false.

Definition main : M unit :=
  print "WebQx Automated Conflict Resolution" ;;;
  print "===================================" ;;;
  try_except
    (resolver <- ConflictResolver ;;
     success <- resolve_all_conflicts resolver ;;
     if success then
       commit_resolution resolver "Auto-resolve merge conflicts following WebQx rules" ;;;
       print (String newline "✓ All conflicts resolved successfully!") ;;;
       sys_exit 0
     else
       print (String newline "✗ Some conflicts could not be resolved automatically.") ;;;
       sys_exit 1)
    (fun e =>
       print (String newline "✗ Error during conflict resolution: " +:+ str_exn e) ;;;
       sys_exit 1).

(** The exit status of the process for the way [main] ended: the code of a
    [SystemExit], 1 for any other exception, 0 for a normal return. *)
Definition exit_status {A} (r : exn + A) : Z :=
  match r with
  | inl (SystemExit code) => code
  | inl _ => 1
  | inr _ => 0
  end.

(** [st] after the world became [w], [lines] were printed and [events]
    took place. *)
Definition advance (st : state) (w : world) (lines : list string)
    (events : list event) : state :=
  {| st_world := w;
     st_printed := st_printed st ++ lines;
     st_trace := st_trace st ++ events;
     st_conflicts := st_conflicts st |}.

Definition initial_state (w : world) : state :=
  {| st_world := w; st_printed := []; st_trace := []; st_conflicts := [] |}.

End resolver.

(** ** A simulated repository

    A small git, enough to run the script on concrete merges: the
    conflicted paths, the files of the two revisions, the working tree and
    the index. *)

Record sim_world : Type := {
  sim_in_repo : bool;                        (* is the directory in a repository *)
  sim_listing_ok : bool;                     (* does listing the conflicts work *)
  sim_unmerged : list string;                (* the conflicted paths *)
  sim_head : list (string * string);         (* files at HEAD *)
  sim_merge_head : list (string * string);   (* files at MERGE_HEAD *)
  sim_worktree : list (string * string);     (* files written by the script *)
  sim_staged : list string;                  (* paths staged for the commit *)
  sim_commit_ok : bool                       (* does [git commit] succeed *)
}.

Definition completed (code : Z) (out err : string) : CompletedProcess :=
  {| returncode := code; stdout := out; stderr := err |}.

(** [s] without the prefix [prefix], when it starts with it. *)
Fixpoint strip_prefix (prefix s : string) : option string :=
  match prefix, s with
  | EmptyString, _ => Some s
  | String c prefix', String c' s' =>
      if Ascii.eqb c c' then strip_prefix prefix' s' else None
  | String _ _, EmptyString => None
  end.

Fixpoint unlines (lines : list string) : string :=
  match lines with
  | [] => EmptyString
  | line :: rest => line +:+ String newline (unlines rest)
  end.

Definition sim_show (files : list (string * string)) (path : string)
    : CompletedProcess :=
  match dict_get files path with
  | Some content => completed 0 content EmptyString
  | None => completed 128 EmptyString "fatal: path does not exist"
  end.

Definition sim_run_git (cmd : list string) (cwd : option string) (w : sim_world)
    : CompletedProcess * sim_world :=
  if bool_decide (cmd = ["git"; "rev-parse"; "--show-toplevel"]) then
    (if sim_in_repo w then completed 0 (unlines ["/repo"]) EmptyString
     else completed 128 EmptyString "fatal: not a git repository", w)
  else if bool_decide (cmd = ["git"; "diff"; "--name-only"; "--diff-filter=U"]) then
    (if sim_listing_ok w then completed 0 (unlines (sim_unmerged w)) EmptyString
     else completed 129 EmptyString "error: could not read the index", w)
  else if bool_decide (cmd = ["git"; "diff"; "--cached"; "--name-only"]) then
    (completed 0 (unlines (sim_staged w)) EmptyString, w)
  else
    match cmd with
    | [_; verb; arg] =>
        if String.eqb verb "show" then
          (match strip_prefix "MERGE_HEAD:" arg, strip_prefix "HEAD:" arg with
           | Some path, _ => sim_show (sim_merge_head w) path
           | None, Some path => sim_show (sim_head w) path
           | None, None => completed 128 EmptyString "fatal: bad revision"
           end, w)
        else if String.eqb verb "add" then
          (completed 0 EmptyString EmptyString,
           {| sim_in_repo := sim_in_repo w;
              sim_listing_ok := sim_listing_ok w;
              sim_unmerged := List.filter (fun p => negb (String.eqb p arg)) (sim_unmerged w);
              sim_head := sim_head w;
              sim_merge_head := sim_merge_head w;
              sim_worktree := sim_worktree w;
              sim_staged := sim_staged w ++ [arg];
              sim_commit_ok := sim_commit_ok w |})
        else (completed 1 EmptyString "git: unknown command", w)
    | [_; verb; _; _] =>
        if (String.eqb verb "commit" && sim_commit_ok w)%bool then
          (completed 0 EmptyString EmptyString,
           {| sim_in_repo := sim_in_repo w;
              sim_listing_ok := sim_listing_ok w;
              sim_unmerged := sim_unmerged w;
              sim_head := sim_head w;
              sim_merge_head := sim_merge_head w;
              sim_worktree := sim_worktree w;
              sim_staged := [];
              sim_commit_ok := sim_commit_ok w |})
        else (completed 1 EmptyString "error: commit failed", w)
    | _ => (completed 1 EmptyString "git: unknown command", w)
    end.

Definition sim_write_file (path content : string) (w : sim_world)
    : option string * sim_world :=
  (None,
   {| sim_in_repo := sim_in_repo w;
      sim_listing_ok := sim_listing_ok w;
      sim_unmerged := sim_unmerged w;
      sim_head := sim_head w;
      sim_merge_head := sim_merge_head w;
      sim_worktree := dict_set (sim_worktree w) path content;
      sim_staged := sim_staged w;
      sim_commit_ok := sim_commit_ok w |}).

(** The simulated host reads the one document ["{}"]; the merge itself is
    exercised on parsed documents above. *)
Definition sim_host : Host :=
  {| world := sim_world;
     run_git := sim_run_git;
     write_file := sim_write_file;
     json_loads := fun text =>
       if String.eqb (strip text) "{}" then inr (JDict [])
       else inl "Expecting value: line 1 column 1 (char 0)";
     json_dumps := fun _ => "{}" |}.

(** A merge with three conflicts: [README.md] was deleted on the incoming
    branch, [server.js] and [notes/config.txt] changed on both. *)
Definition sim_conflicted : sim_world :=
  {| sim_in_repo := true;
     sim_listing_ok := true;
     sim_unmerged := ["README.md"; "server.js"; "notes/config.txt"];
     sim_head := [("README.md", "# current"); ("server.js", "current();");
                  ("notes/config.txt", "mode = current")];
     sim_merge_head := [("server.js", "incoming();");
                        ("notes/config.txt", "mode = incoming")];
     sim_worktree := [];
     sim_staged := [];
     sim_commit_ok := true |}.

(** A conflict on [README.md] in a repository where the commit is refused
    (a hook rejects it, or no committer identity is configured). *)
Definition sim_commit_refused : sim_world :=
  {| sim_in_repo := true;
     sim_listing_ok := true;
     sim_unmerged := ["README.md"];
     sim_head := [("README.md", "# current")];
     sim_merge_head := [("README.md", "# incoming")];
     sim_worktree := [];
     sim_staged := [];
     sim_commit_ok := false |}.

(** A directory that is not in a repository. *)
Definition sim_outside : sim_world :=
  {| sim_in_repo := false;
     sim_listing_ok := false;
     sim_unmerged := [];
     sim_head := [];
     sim_merge_head := [];
     sim_worktree := [];
     sim_staged := [];
     sim_commit_ok := false |}.

(** A repository whose index cannot be read: listing the conflicts fails. *)
Definition sim_listing_fails : sim_world :=
  {| sim_in_repo := true;
     sim_listing_ok := false;
     sim_unmerged := ["server.js"];
     sim_head := [("server.js", "current();")];
     sim_merge_head := [("server.js", "incoming();")];
     sim_worktree := [];
     sim_staged := [];
     sim_commit_ok := true |}.

(** ** Values inside a document *)

(** [json_at v [k1; k2]] is [v[k1][k2]]: the value reached from [v] through
    the keys of the path, every step but the last through a mapping. *)
Fixpoint json_at (v : json) (path : list string) : option json :=
  match path with
  | [] => Some v
  | k :: rest =>
      match v with
      | JDict items =>
          match dict_get items k with
          | Some sub => json_at sub rest
          | None => None
          end
      | _ => None
      end
  end.

(** ** What the resolver's output and effects are measured against *)


(** The characters of a string, and a string from its characters. *)
Fixpoint chars (s : string) : list ascii :=
  match s with
  | EmptyString => []
  | String c rest => c :: chars rest
  end.


Section resolver_properties.
Context `{Host}.

(** [m] raises nothing but [Exception]s: it never exits the process. *)
Definition no_exit {A} (m : M A) : Prop :=
  forall st e st', m st = (inl e, st') -> is_Exception e = true.

(** Whatever [m] does, the events it adds to the trace all satisfy [P]. *)
Definition emits (P : event -> Prop) {A} (m : M A) : Prop :=
  forall st r st', m st = (r, st') ->
    exists events, st_trace st' = st_trace st ++ events /\ Forall P events.

(** The events that concern the conflicted path [filepath]: reading it at
    either revision, writing the working file, staging it; every command in
    the repository root. *)
Definition touches (repo_root filepath : string) (e : event) : Prop :=
  e = Git ["git"; "show"; "HEAD:" +:+ filepath] (Some repo_root)
  \/ e = Git ["git"; "show"; "MERGE_HEAD:" +:+ filepath] (Some repo_root)
  \/ (exists content, e = WriteFile (path_join repo_root filepath) content)
  \/ e = Git ["git"; "add"; filepath] (Some repo_root).

(** Every path of the list is resolved, one after the other, each from the
    state the one before left. *)
Fixpoint all_resolved (repo_root : string) (paths : list string) (st : state)
    : Prop :=
  match paths with
  | [] => True
  | filepath :: rest =>
      match resolve_file repo_root filepath st with
      | (inr resolved, st') => resolved = true /\ all_resolved repo_root rest st'
      | (inl _, _) => False
      end
  end.

End resolver_properties.

(** The simulated repository on a file system that refuses every write. *)
Definition sim_readonly_host : Host :=
  {| world := sim_world;
     run_git := sim_run_git;
     write_file := fun _ _ w => (Some "Permission denied", w);
     json_loads := @json_loads sim_host;
     json_dumps := @json_dumps sim_host |}.

(** A conflict on [config.json], an empty document at both revisions. *)
Definition sim_json_conflict : sim_world :=
  {| sim_in_repo := true;
     sim_listing_ok := true;
     sim_unmerged := ["config.json"];
     sim_head := [("config.json", "{}")];
     sim_merge_head := [("config.json", "{}")];
     sim_worktree := [];
     sim_staged := [];
     sim_commit_ok := true |}.

(** A conflict on a file that the current revision does not have, beside
    one that it has. *)
Definition sim_unresolvable : sim_world :=
  {| sim_in_repo := true;
     sim_listing_ok := true;
     sim_unmerged := ["server.js"; "gone.txt"];
     sim_head := [("server.js", "current();")];
     sim_merge_head := [("server.js", "incoming();"); ("gone.txt", "incoming")];
     sim_worktree := [];
     sim_staged := [];
     sim_commit_ok := true |}.

(** * Lemmas and theorems *)

(** ** Strings *)

Lemma append_nil_l (s : string) : EmptyString +:+ s = s.
Proof. reflexivity. Qed.

Lemma append_cons (c : ascii) (s t : string) :
  String c s +:+ t = String c (s +:+ t).
Proof. reflexivity. Qed.

Lemma append_nil_r (s : string) : s +:+ EmptyString = s.
Proof. induction s as [|c s IH]; [done|]. by rewrite append_cons, IH. Qed.

Lemma append_assoc (s t u : string) : (s +:+ t) +:+ u = s +:+ (t +:+ u).
Proof. induction s as [|c s IH]; [done|]. by rewrite !append_cons, IH. Qed.

Lemma lower_append (s t : string) : lower (s +:+ t) = lower s +:+ lower t.
Proof.
  induction s as [|c s IH]; [done|].
  rewrite append_cons. simpl. by rewrite IH, append_cons.
Qed.

(** A split of [lower s] is the image of a split of [s]. *)
Lemma lower_split (s a b : string) :
  lower s = a +:+ b -> exists a' b', s = a' +:+ b' /\ lower a' = a /\ lower b' = b.
Proof.
  revert s. induction a as [|c a IH]; intros s Hs.
  - exists EmptyString, s. by rewrite !append_nil_l in *.
  - destruct s as [|c' s]; [done|].
    rewrite append_cons in Hs. simpl in Hs. injection Hs as Hc Hs.
    destruct (IH s Hs) as (a' & b' & -> & <- & <-).
    exists (String c' a'), b'. rewrite append_cons. simpl. by rewrite Hc.
Qed.

Lemma startswith_spec (s prefix : string) :
  startswith s prefix = true <-> exists post, s = prefix +:+ post.
Proof.
  revert s. induction prefix as [|c prefix IH]; intros s; simpl.
  - split; [|done]. intros _. by exists s.
  - destruct s as [|c' s].
    + split; [done|]. by intros [post Hpost].
    + rewrite andb_true_iff, Ascii.eqb_eq, IH. split.
      * intros [-> [post ->]]. by exists post.
      * intros [post Hpost]. rewrite append_cons in Hpost.
        injection Hpost as -> ->. split; [done|]. by exists post.
Qed.

Lemma endswith_unfold (s suffix : string) :
  endswith s suffix =
    (String.eqb s suffix
     || match s with EmptyString => false | String _ rest => endswith rest suffix end)%bool.
Proof. destruct s; cbn [endswith]; by destruct (String.eqb _ suffix). Qed.

Lemma endswith_spec (s suffix : string) :
  endswith s suffix = true <-> exists pre, s = pre +:+ suffix.
Proof.
  induction s as [|c s IH]; rewrite endswith_unfold, orb_true_iff, String.eqb_eq.
  - split.
    + intros [->|?]; [|done]. by exists EmptyString.
    + intros [[|c pre] Hpre]; [by left|done].
  - rewrite IH. split.
    + intros [->|[pre ->]]; [by exists EmptyString|].
      by exists (String c pre).
    + intros [[|c' pre] Hpre]; [by left|right].
      rewrite append_cons in Hpre. injection Hpre as _ ->. by exists pre.
Qed.

Lemma contains_unfold (s sub : string) :
  contains s sub =
    (startswith s sub
     || match s with EmptyString => false | String _ rest => contains rest sub end)%bool.
Proof. destruct s; cbn [contains]; by destruct (startswith _ sub). Qed.

Lemma contains_spec (s sub : string) :
  contains s sub = true <-> exists pre post, s = pre +:+ sub +:+ post.
Proof.
  induction s as [|c s IH]; rewrite contains_unfold, orb_true_iff, startswith_spec.
  - split.
    + intros [[post Hpost]|?]; [|done]. by exists EmptyString, post.
    + intros ([|c pre] & post & Hpre); [|done]. left. by exists post.
  - rewrite IH. split.
    + intros [[post Hpost]|(pre & post & ->)].
      * by exists EmptyString, post.
      * by exists (String c pre), post.
    + intros ([|c' pre] & post & Hpre).
      * left. by exists post.
      * right. rewrite append_cons in Hpre. injection Hpre as _ ->. by exists pre, post.
Qed.



(** [final_segment] is the part after the last ['/']. *)
Lemma final_segment_spec (path : string) :
  exists dir, path = dir +:+ final_segment path
              /\ contains (final_segment path) "/" = false
              /\ (dir = EmptyString \/ endswith dir "/" = true).
Proof.
  induction path as [|c rest IH]; [by exists EmptyString; auto|].
  simpl. destruct (contains rest "/") eqn:Hrest.
  - destruct IH as (dir & Hdir & Hno & Hend).
    exists (String c dir). rewrite append_cons, <-Hdir. split_and!; [done..|].
    right. rewrite endswith_unfold.
    destruct Hend as [-> | ->]; [|by rewrite orb_true_r].
    rewrite append_nil_l in Hdir. by rewrite <-Hdir, Hrest in Hno.
  - destruct (Ascii.eqb_spec c "/") as [-> | Hc].
    + exists "/". split_and!; [done..|]. by right.
    + exists EmptyString. split_and!; [done| |by left].
      rewrite contains_unfold, Hrest, orb_false_r. cbn [startswith].
      rewrite andb_true_r, Ascii.eqb_sym. by apply Ascii.eqb_neq.
Qed.

(** ** The strategy selector *)

Lemma contains_lower_spec (s sub : string) :
  contains (lower s) sub = true
  <-> exists pre mid post, s = pre +:+ mid +:+ post /\ lower mid = sub.
Proof.
  rewrite contains_spec. split.
  - intros (pre & post & Hs).
    apply lower_split in Hs as (pre' & rest & -> & _ & Hrest).
    apply lower_split in Hrest as (mid & post' & -> & Hmid & _).
    by exists pre', mid, post'.
  - intros (pre & mid & post & -> & <-).
    exists (lower pre), (lower post). by rewrite !lower_append.
Qed.


Lemma classify_PreserveIncoming (path : string) :
  classify path = PreserveIncoming <-> is_readme path = true.
Proof.
  unfold classify. destruct (is_readme path); [done|].
  by destruct (is_json_or_config path).
Qed.

Lemma classify_StructuredMerge (path : string) :
  classify path = StructuredMerge
  <-> is_readme path = false /\ is_json_or_config path = true.
Proof.
  unfold classify. destruct (is_readme path); [intuition congruence|].
  destruct (is_json_or_config path); intuition congruence.
Qed.

Lemma classify_PreferCurrent (path : string) :
  classify path = PreferCurrent
  <-> is_readme path = false /\ is_json_or_config path = false.
Proof.
  unfold classify. destruct (is_readme path); [intuition congruence|].
  destruct (is_json_or_config path); intuition congruence.
Qed.

Lemma is_json_or_config_spec (path : string) :
  is_json_or_config path = true
  <-> (exists pre, path = pre +:+ ".json")
      \/ (exists pre mid post, path = pre +:+ mid +:+ post /\ lower mid = "config").
Proof.
  unfold is_json_or_config.
  by rewrite orb_true_iff, endswith_spec, contains_lower_spec.
Qed.

Example classify_README : classify "README.md" = PreserveIncoming.
Proof. reflexivity. Qed.

Example classify_nested_readme : classify "app/readme.md" = PreserveIncoming.
Proof. reflexivity. Qed.

Example classify_config_json : classify "config.json" = StructuredMerge.
Proof. reflexivity. Qed.

Example classify_settings_config : classify "settings-config.yaml" = StructuredMerge.
Proof. reflexivity. Qed.

Example classify_server_js : classify "server.js" = PreferCurrent.
Proof. reflexivity. Qed.

Example classify_config_readme : classify "config/README.md" = PreserveIncoming.
Proof. reflexivity. Qed.



(** C7: a path that is not documentation is StructuredMerge exactly when it
    ends with ['.json'] or contains a substring that is ['config'] up to
    letter case, and PreferCurrent exactly when it does neither. *)
Theorem C7_structured_rule (path : string) :
  classify path <> PreserveIncoming ->
  (classify path = StructuredMerge
   <-> (exists pre, path = pre +:+ ".json")
       \/ (exists pre mid post, path = pre +:+ mid +:+ post /\ lower mid = "config"))
  /\ (classify path = PreferCurrent
      <-> ~ ((exists pre, path = pre +:+ ".json")
             \/ (exists pre mid post,
                    path = pre +:+ mid +:+ post /\ lower mid = "config"))).
Proof.
  intros Hdoc. rewrite <-is_json_or_config_spec.
  rewrite classify_StructuredMerge, classify_PreferCurrent.
  rewrite classify_PreserveIncoming in Hdoc.
  destruct (is_readme path); [done|].
  destruct (is_json_or_config path); intuition congruence.
Qed.

(** ['server.js'] matches neither rule and is PreferCurrent. *)
Lemma C7_structured_rule_witness :
  classify "server.js" <> PreserveIncoming /\ classify "server.js" = PreferCurrent.
Proof.
  assert (classify "server.js" <> PreserveIncoming) as Hdoc by discriminate.
  split; [exact Hdoc|].
  apply (C7_structured_rule "server.js" Hdoc).
  rewrite <-is_json_or_config_spec. discriminate.
Defined.

(** ** Mappings *)

Section dict_lemmas.
Context {V : Type}.
Implicit Types (d : list (string * V)) (key : string) (value : V).

Lemma dict_get_set_eq d key value : dict_get (dict_set d key value) key = Some value.
Proof.
  induction d as [|[k v] d IH]; simpl.
  - by rewrite String.eqb_refl.
  - destruct (String.eqb k key) eqn:Hk; simpl; by rewrite Hk.
Qed.

Lemma dict_get_set_ne d key key' value :
  key <> key' -> dict_get (dict_set d key value) key' = dict_get d key'.
Proof.
  intros Hne. induction d as [|[k v] d IH]; simpl.
  - by apply String.eqb_neq in Hne as ->.
  - destruct (String.eqb_spec k key) as [-> | Hk]; simpl.
    + by apply String.eqb_neq in Hne as ->.
    + by rewrite IH.
Qed.

Lemma dict_get_Some_In d key value :
  dict_get d key = Some value -> In (key, value) d.
Proof.
  induction d as [|[k v] d IH]; simpl; [done|].
  destruct (String.eqb_spec k key) as [-> | Hk]; [|by auto].
  intros [= ->]. by left.
Qed.

Lemma dict_get_None d key : dict_get d key = None <-> ~ In key (map fst d).
Proof.
  induction d as [|[k v] d IH]; simpl; [by intuition|].
  destruct (String.eqb_spec k key) as [-> | Hk]; [by intuition|].
  rewrite IH. by intuition.
Qed.

(** [key in d] holds exactly for the keys of [d]. *)
Lemma dict_has_In d key : dict_has d key = true <-> In key (map fst d).
Proof.
  unfold dict_has. destruct (dict_get d key) eqn:Hget.
  - split; [intros _|done].
    apply dict_get_Some_In in Hget. by apply (in_map fst) in Hget.
  - apply dict_get_None in Hget. by split.
Qed.

Lemma dict_get_is_Some d key : is_Some (dict_get d key) <-> In key (map fst d).
Proof.
  rewrite <-dict_has_In. unfold dict_has.
  destruct (dict_get d key); split; [done|by eauto|by intros []|done].
Qed.

(** An assignment to a present key keeps the keys and their order; to a new
    key it appends it. *)
Lemma dict_set_keys d key value :
  map fst (dict_set d key value)
  = if dict_has d key then map fst d else map fst d ++ [key].
Proof.
  unfold dict_has. induction d as [|[k v] d IH]; simpl; [done|].
  destruct (String.eqb_spec k key) as [-> | Hk]; simpl; [done|].
  rewrite IH. by destruct (dict_get d key).
Qed.

Lemma dict_set_NoDup d key value :
  NoDup (map fst d) -> NoDup (map fst (dict_set d key value)).
Proof.
  intros Hd. rewrite dict_set_keys. destruct (dict_has d key) eqn:Hhas; [done|].
  apply NoDup_app. split_and!; [done| |apply NoDup_singleton].
  intros k Hk ->%list_elem_of_singleton.
  apply list_elem_of_In, dict_has_In in Hk. congruence.
Qed.

Lemma dict_get_first d key value (rest : list (string * V)) :
  dict_get ((key, value) :: rest) key = Some value.
Proof. simpl. by rewrite String.eqb_refl. Qed.

End dict_lemmas.

(** ** The merge of two documents *)

Lemma _merge_dict_recursive_unfold (dict1 dict2 : dict) :
  _merge_dict_recursive dict1 dict2
  = fold_left (fun result '(key, value) =>
                 merge_item merge_into result result key value) dict2 dict1.
Proof. reflexivity. Qed.

Lemma merge_item_get_eq (src result : dict) (key : string) (value : json) :
  dict_get result key = dict_get src key ->
  dict_get (merge_item merge_into src result key value) key
  = match dict_get src key with
    | None => Some value
    | Some v1 => Some (merged_value v1 value)
    end.
Proof.
  intros Hres. unfold merge_item, dict_has.
  destruct (dict_get src key) as [v1|] eqn:Hsrc; simpl.
  - destruct v1, value; simpl; try done. by rewrite dict_get_set_eq.
  - by rewrite dict_get_set_eq.
Qed.

Lemma merge_item_get_ne (src result : dict) (key k : string) (value : json) :
  key <> k ->
  dict_get (merge_item merge_into src result key value) k = dict_get result k.
Proof.
  intros Hne. unfold merge_item.
  destruct (negb (dict_has src key)); [by rewrite dict_get_set_ne|].
  destruct (dict_get src key) as [[]|], value; try done.
  by rewrite dict_get_set_ne.
Qed.

(** Every lookup in the result of [_merge_dict_recursive], for an incoming
    mapping that holds each key once. *)
Lemma _merge_dict_recursive_get (dict1 dict2 : dict) (k : string) :
  NoDup (keys dict2) ->
  dict_get (_merge_dict_recursive dict1 dict2) k
  = match dict_get dict2 k with
    | None => dict_get dict1 k
    | Some v2 =>
        match dict_get dict1 k with
        | None => Some v2
        | Some v1 => Some (merged_value v1 v2)
        end
    end.
Proof.
  rewrite _merge_dict_recursive_unfold. unfold keys.
  revert dict1. induction dict2 as [|[key value] dict2 IH]; intros dict1 Hnd; [done|].
  apply NoDup_cons in Hnd as [Hkey Hnd]. cbn [fold_left dict_get].
  rewrite IH by done.
  destruct (String.eqb_spec key k) as [-> | Hne].
  - assert (dict_get dict2 k = None) as ->.
    { apply dict_get_None. by rewrite <-list_elem_of_In. }
    by rewrite merge_item_get_eq.
  - by rewrite merge_item_get_ne.
Qed.

(** The loop of [resolve_json_conflict] tests [main_data] where the loop of
    [_merge_dict_recursive] tests [result]; on a Python [dict], whose keys
    are distinct, the two loops compute the same mapping. *)
Lemma merge_loops_agree (main_items head_items merged : dict) :
  NoDup (keys head_items) ->
  (forall k, In k (keys head_items) -> dict_get merged k = dict_get main_items k) ->
  fold_left (fun merged '(key, value) =>
               merge_item merge_into main_items merged key value) head_items merged
  = fold_left (fun result '(key, value) =>
                 merge_item merge_into result result key value) head_items merged.
Proof.
  unfold keys. revert merged.
  induction head_items as [|[key value] head_items IH]; intros merged Hnd Hagree; [done|].
  apply NoDup_cons in Hnd as [Hkey Hnd]. cbn [fold_left].
  assert (merge_item merge_into main_items merged key value
          = merge_item merge_into merged merged key value) as Hstep.
  { unfold merge_item, dict_has. by rewrite (Hagree key) by by left. }
  rewrite Hstep. apply IH; [done|].
  intros k Hk. rewrite <-Hstep, merge_item_get_ne.
  - apply Hagree. by right.
  - intros ->. by apply Hkey, list_elem_of_In.
Qed.

Lemma merge_documents_dict (main_items head_items : dict) :
  NoDup (keys head_items) ->
  merge_documents (JDict main_items) (JDict head_items)
  = JDict (_merge_dict_recursive main_items head_items).
Proof.
  intros Hnd. unfold merge_documents. f_equal.
  rewrite _merge_dict_recursive_unfold. by apply merge_loops_agree.
Qed.

(** When either root is not a mapping, the current document is the result. *)
Lemma merge_documents_not_dict (main_data head_data : json) :
  (is_dict main_data && is_dict head_data)%bool = false ->
  merge_documents main_data head_data = main_data.
Proof. by destruct main_data, head_data. Qed.

Lemma wf_json_NoDup (items : dict) :
  wf_json (JDict items) = true -> NoDup (keys items).
Proof. cbn [wf_json]. intros [Hnd _]%andb_true_iff. by apply bool_decide_eq_true in Hnd. Qed.

Lemma wf_json_get (items : dict) (k : string) (v : json) :
  wf_json (JDict items) = true -> dict_get items k = Some v -> wf_json v = true.
Proof.
  cbn [wf_json]. intros [_ Hall]%andb_true_iff Hget.
  rewrite forallb_forall in Hall. by apply (Hall (k, v)), dict_get_Some_In.
Qed.

(** Below a path of keys that are mappings on both sides, the merge is the
    merge of the two sub-mappings. *)
Lemma descend_merge (path : list string) (dict1 dict2 sub1 sub2 : dict) :
  wf_json (JDict dict2) = true ->
  descend dict1 path = Some sub1 ->
  descend dict2 path = Some sub2 ->
  descend (_merge_dict_recursive dict1 dict2) path
  = Some (_merge_dict_recursive sub1 sub2).
Proof.
  revert dict1 dict2. induction path as [|k path IH]; intros dict1 dict2 Hwf H1 H2.
  - by injection H1 as <-; injection H2 as <-.
  - cbn [descend] in *.
    destruct (dict_get dict1 k) as [[| | | | | |next1]|] eqn:Hget1; try done.
    destruct (dict_get dict2 k) as [[| | | | | |next2]|] eqn:Hget2; try done.
    rewrite _merge_dict_recursive_get, Hget1, Hget2 by by apply wf_json_NoDup.
    cbn [merged_value]. apply IH; [|done..].
    by apply (wf_json_get dict2 k).
Qed.

Lemma _merge_dict_recursive_keys (dict1 dict2 : dict) (k : string) :
  NoDup (keys dict2) ->
  In k (keys dict1) \/ In k (keys dict2) ->
  In k (keys (_merge_dict_recursive dict1 dict2)).
Proof.
  intros Hnd Hk. unfold keys in *.
  rewrite <-!dict_get_is_Some in *. rewrite _merge_dict_recursive_get by done.
  destruct Hk as [[v1 ->]|[v2 ->]].
  - by destruct (dict_get dict2 k).
  - by destruct (dict_get dict1 k).
Qed.

Lemma descend_wf (path : list string) (items sub : dict) :
  wf_json (JDict items) = true ->
  descend items path = Some sub ->
  wf_json (JDict sub) = true.
Proof.
  revert items. induction path as [|k path IH]; intros items Hwf Hsub.
  - by injection Hsub as <-.
  - cbn [descend] in Hsub.
    destruct (dict_get items k) as [[| | | | | |next]|] eqn:Hget; try done.
    apply (IH next); [|done]. by apply (wf_json_get items k).
Qed.

(** C1: for mapping-rooted documents, the merge holds every key of either
    side, and so does the merged mapping at every path of keys along which
    both sides hold mappings. The incoming document is a parsed JSON
    document: each of its mappings holds a key once. *)
Theorem C1_key_union (dict1 dict2 : dict) (path : list string) (sub1 sub2 : dict) :
  wf_json (JDict dict2) = true ->
  descend dict1 path = Some sub1 ->
  descend dict2 path = Some sub2 ->
  exists merged sub,
    merge_documents (JDict dict1) (JDict dict2) = JDict merged
    /\ descend merged path = Some sub
    /\ forall k, In k (keys sub1) \/ In k (keys sub2) -> In k (keys sub).
Proof.
  intros Hwf H1 H2.
  exists (_merge_dict_recursive dict1 dict2), (_merge_dict_recursive sub1 sub2).
  split_and!.
  - by apply merge_documents_dict, wf_json_NoDup.
  - by apply descend_merge.
  - intros k. apply _merge_dict_recursive_keys.
    by apply wf_json_NoDup, (descend_wf path dict2).
Qed.

Example merge_scenario1 :
  merge_documents (JDict scenario1_current) (JDict scenario1_incoming)
  = JDict scenario1_incoming.
Proof. reflexivity. Qed.

Example merge_scenario2 :
  merge_documents (JDict scenario2_current) (JDict scenario2_incoming)
  = JDict [("version", JStr "1.0.1");
           ("engines", JDict [("node", JStr ">=16")]);
           ("scripts", JDict [("start", JStr "x")])].
Proof. reflexivity. Qed.

(** A mapping on one side and a scalar on the other: the current side
    stays, whichever of the two it is. *)
Example merge_type_mismatch :
  merge_documents (JDict [("a", JInt 1); ("b", JDict [("x", JInt 1)])])
                  (JDict [("a", JDict [("y", JInt 2)]); ("b", JStr "s")])
  = JDict [("a", JInt 1); ("b", JDict [("x", JInt 1)])].
Proof. reflexivity. Qed.

Lemma C1_key_union_witness :
  exists merged sub,
    merge_documents (JDict scenario1_current) (JDict scenario1_incoming) = JDict merged
    /\ descend merged ["database"] = Some sub
    /\ forall k, In k ["host"] \/ In k ["host"; "ssl"] -> In k (keys sub).
Proof.
  apply (C1_key_union scenario1_current scenario1_incoming ["database"]
           [("host", JStr "localhost")]
           [("host", JStr "localhost"); ("ssl", JBool true)]);
    reflexivity.
Defined.



(** C8: merging a mapping-rooted document with the empty document gives
    the document back. *)
Theorem C8_merge_empty (dict1 : dict) :
  merge_documents (JDict dict1) (JDict []) = JDict dict1
  /\ _merge_dict_recursive dict1 [] = dict1.
Proof. split; reflexivity. Qed.

(** ** The merge on the object store *)

(** Induction on a document, with the hypothesis for every element of a
    list and every value of a mapping. *)
Lemma json_ind (P : json -> Prop) :
  P JNull ->
  (forall b, P (JBool b)) ->
  (forall z, P (JInt z)) ->
  (forall f, P (JFloat f)) ->
  (forall s, P (JStr s)) ->
  (forall elems, Forall P elems -> P (JList elems)) ->
  (forall items, Forall (fun kv => P (snd kv)) items -> P (JDict items)) ->
  forall j, P j.
Proof.
  intros Hnull Hbool Hint Hfloat Hstr Hlist Hdict.
  fix rec 1. intros [| | | | |elems|items]; [clear rec; auto..| |].
  - apply Hlist. induction elems as [|j elems IH]; [constructor|].
    constructor; [apply rec|exact IH].
  - apply Hdict. induction items as [|[k j] items IH]; [constructor|].
    constructor; [apply rec|exact IH].
Qed.

Lemma repr_dict_inv (h : heap) (items : dict) (v : val) :
  repr h (JDict items) v ->
  exists l vitems,
    v = VRef l /\ h !! l = Some (ODict vitems) /\ Forall2 (item_repr h) items vitems.
Proof. inversion 1; subst. by eexists _, _. Qed.

Lemma Forall2_impl_Forall {A B} (P : A -> Prop) (R R' : A -> B -> Prop)
    (xs : list A) (ys : list B) :
  Forall P xs -> Forall2 R xs ys -> (forall x y, P x -> R x y -> R' x y) ->
  Forall2 R' xs ys.
Proof.
  intros HP HR Himpl. induction HR as [|x y xs ys Hxy HR IH]; [constructor|].
  apply Forall_cons in HP as [Hx HP]. constructor; auto.
Qed.

(** A document stays represented when the store grows. *)
Lemma repr_mono (h h' : heap) (j : json) (v : val) :
  h ⊆ h' -> repr h j v -> repr h' j v.
Proof.
  intros Hsub. revert v.
  induction j as [| | | | |elems IH|items IH] using json_ind; intros v Hv;
    inversion Hv as [| | | | |l es velems Hl Hall|l its vitems Hl Hall]; subst;
    try by constructor.
  - eapply repr_list; [by eapply lookup_weaken|].
    eapply Forall2_impl_Forall; [exact IH|exact Hall|]. auto.
  - eapply repr_dict; [by eapply lookup_weaken|].
    eapply Forall2_impl_Forall; [exact IH|exact Hall|].
    intros kj kv Hkj [Hk Hr]. split; [done|by apply Hkj].
Qed.

Lemma item_repr_mono (h h' : heap) (items : dict) (vitems : list (string * val)) :
  h ⊆ h' -> Forall2 (item_repr h) items vitems -> Forall2 (item_repr h') items vitems.
Proof.
  intros Hsub Hall. eapply Forall2_impl; [exact Hall|].
  intros kj kv [Hk Hr]. split; [done|by eapply repr_mono].
Qed.

(** [isinstance(v, dict)] reads the kind of document that [v] is. *)
Lemma isinstance_dict_repr (hb h : heap) (j : json) (v : val) :
  hb ⊆ h -> repr hb j v -> isinstance_dict v h = Done (is_dict j) h.
Proof.
  intros Hsub Hv. unfold isinstance_dict.
  inversion Hv as [| | | | |l es velems Hl Hall|l its vitems Hl Hall]; subst;
    try done.
  - by rewrite (lookup_weaken _ _ _ _ Hl Hsub).
  - by rewrite (lookup_weaken _ _ _ _ Hl Hsub).
Qed.

Lemma dict_get_repr (h : heap) (items : dict) (vitems : list (string * val))
    (key : string) :
  Forall2 (item_repr h) items vitems ->
  match dict_get items key, dict_get vitems key with
  | Some j, Some v => repr h j v
  | None, None => True
  | _, _ => False
  end.
Proof.
  induction 1 as [|[k j] [k' v] ? ? [Hk Hr] _ IH]; simpl in *; [done|]. subst k'.
  by destruct (String.eqb k key).
Qed.

Lemma dict_has_repr (h : heap) (items : dict) (vitems : list (string * val))
    (key : string) :
  Forall2 (item_repr h) items vitems ->
  dict_has vitems key = dict_has items key.
Proof.
  intros Hitems. unfold dict_has.
  pose proof (dict_get_repr h items vitems key Hitems) as Hget.
  by destruct (dict_get items key), (dict_get vitems key).
Qed.

Lemma dict_set_repr (h : heap) (items : dict) (vitems : list (string * val))
    (key : string) (j : json) (v : val) :
  Forall2 (item_repr h) items vitems ->
  repr h j v ->
  Forall2 (item_repr h) (dict_set items key j) (dict_set vitems key v).
Proof.
  intros Hitems Hv.
  induction Hitems as [|[k j0] [k' v0] ? ? [Hk Hr] Hrest IH]; simpl in *.
  - by repeat constructor.
  - subst k'. by destruct (String.eqb k key); repeat constructor.
Qed.

Lemma depth_item (items : dict) (k : string) (j : json) :
  In (k, j) items -> (depth j < depth (JDict items))%nat.
Proof.
  cbn [depth]. induction items as [|[k' j'] items IH]; [done|].
  intros [[= -> ->]|Hin]; cbn [fold_right snd]; [lia|].
  specialize (IH Hin). lia.
Qed.

Lemma delete_subseteq_insert (h : heap) (l : loc) (o : obj) :
  delete l h ⊆ delete l (<[l := o]> h).
Proof. by rewrite delete_insert_eq. Qed.

Lemma subseteq_delete_fresh (h0 h : heap) (l : loc) :
  h0 !! l = None -> h0 ⊆ h -> h0 ⊆ delete l h.
Proof.
  intros Hl Hsub. apply map_subseteq_spec. intros i x Hi.
  rewrite lookup_delete_ne by congruence. by eapply lookup_weaken.
Qed.

Lemma delete_mono_from (h h' : heap) (l : loc) :
  delete l h ⊆ h' -> delete l h ⊆ delete l h'.
Proof. apply subseteq_delete_fresh, lookup_delete_eq. Qed.

(** How the operations on the store run. *)
Lemma py_bind_Done {A B} (m : Py A) (k : A -> Py B) (h h' : heap) (a : A) :
  m h = Done a h' -> py_bind m k h = k a h'.
Proof. unfold py_bind. by intros ->. Qed.

Lemma dict_items_run (h : heap) (d : loc) (items : list (string * val)) :
  h !! d = Some (ODict items) -> dict_items d h = Done items h.
Proof. unfold dict_items. by intros ->. Qed.

Lemma dict_len_run (h : heap) (d : loc) (items : list (string * val)) :
  h !! d = Some (ODict items) -> dict_len d h = Done (length items) h.
Proof. intros Hd. unfold dict_len. by rewrite (py_bind_Done _ _ _ _ _ (dict_items_run _ _ _ Hd)). Qed.

Lemma item_at_run (h : heap) (d : loc) (items : list (string * val))
    (i : nat) (kv : string * val) :
  h !! d = Some (ODict items) -> items !! i = Some kv ->
  item_at d (length items) i h = Done kv h.
Proof.
  intros Hd Hi. unfold item_at.
  rewrite (py_bind_Done _ _ _ _ _ (dict_items_run _ _ _ Hd)).
  by rewrite Nat.eqb_refl, Hi.
Qed.

Lemma py_in_run (h : heap) (d : loc) (items : list (string * val)) (key : string) :
  h !! d = Some (ODict items) -> py_in key d h = Done (dict_has items key) h.
Proof. intros Hd. unfold py_in. by rewrite (py_bind_Done _ _ _ _ _ (dict_items_run _ _ _ Hd)). Qed.

Lemma getitem_run (h : heap) (d : loc) (items : list (string * val))
    (key : string) (v : val) :
  h !! d = Some (ODict items) -> dict_get items key = Some v ->
  getitem d key h = Done v h.
Proof.
  intros Hd Hv. unfold getitem.
  by rewrite (py_bind_Done _ _ _ _ _ (dict_items_run _ _ _ Hd)), Hv.
Qed.

Lemma setitem_run (h : heap) (d : loc) (items : list (string * val))
    (key : string) (v : val) :
  h !! d = Some (ODict items) ->
  setitem d key v h = Done tt (<[d := ODict (dict_set items key v)]> h).
Proof. unfold setitem. by intros ->. Qed.

Lemma dict_copy_run (h : heap) (d : loc) (items : list (string * val)) :
  h !! d = Some (ODict items) ->
  dict_copy d h = Done (fresh (dom h)) (<[fresh (dom h) := ODict items]> h).
Proof. intros Hd. unfold dict_copy. by rewrite (py_bind_Done _ _ _ _ _ (dict_items_run _ _ _ Hd)). Qed.

Lemma fresh_lookup (h : heap) : h !! fresh (dom h) = None.
Proof. apply not_elem_of_dom, is_fresh. Qed.

(** One iteration of a merge loop. *)
Lemma merge_item_h_returns (fuel : nat) (rec : loc -> loc -> Py loc)
    (base h : heap) (src result : loc) (key : string) (value : val)
    (srcj resj : dict) (vsrc vres : list (string * val)) (jv : json) :
  merge_returns fuel rec ->
  base ⊆ h ->
  base !! result = None ->
  h !! src = Some (ODict vsrc) ->
  Forall2 (item_repr base) srcj vsrc ->
  h !! result = Some (ODict vres) ->
  Forall2 (item_repr base) resj vres ->
  repr base jv value ->
  (depth jv <= fuel)%nat ->
  exists h' base' vres',
    merge_item_h rec src result key value h = Done tt h'
    /\ delete result h ⊆ delete result h'
    /\ h' !! result = Some (ODict vres')
    /\ base ⊆ base'
    /\ base' ⊆ h'
    /\ (forall l, is_Some (h !! l) -> base' !! l = base !! l)
    /\ Forall2 (item_repr base') (merge_item merge_into srcj resj key jv) vres'.
Proof.
  intros Hrec Hbase Hfresh Hsrc Hsrcj Hres Hresj Hval Hdepth.
  unfold merge_item_h, merge_item.
  rewrite (py_bind_Done _ _ _ _ _ (py_in_run _ _ _ key Hsrc)).
  rewrite (dict_has_repr base srcj vsrc key Hsrcj).
  pose proof (dict_get_repr base srcj vsrc key Hsrcj) as Hget.
  unfold dict_has in *.
  destruct (dict_get srcj key) as [jcur|] eqn:Hjcur,
           (dict_get vsrc key) as [current|] eqn:Hcur; try done; cbn [negb].
  - (* the key is in [src] *)
    rewrite (py_bind_Done _ _ _ _ _ (getitem_run _ _ _ _ _ Hsrc Hcur)).
    rewrite (py_bind_Done _ _ _ _ _ (isinstance_dict_repr base h jcur current Hbase Hget)).
    rewrite (py_bind_Done _ _ _ _ _ (isinstance_dict_repr base h jv value Hbase Hval)).
    destruct (is_dict jcur && is_dict jv)%bool eqn:Hboth.
    + apply andb_true_iff in Hboth as [Hd1 Hd2].
      destruct jcur as [| | | | | |js1]; try done.
      destruct jv as [| | | | | |js2]; try done.
      destruct (repr_dict_inv base js1 current Hget) as (s1 & vs1 & -> & _ & _).
      destruct (repr_dict_inv base js2 value Hval) as (s2 & vs2 & -> & _ & _).
      destruct (Hrec base h s1 s2 js1 js2 Hdepth Hbase Hget Hval)
        as (r & h2 & base2 & Hrun & Hh2 & Hr & Hb2 & Hb2h & Hsame & Hmerged).
      rewrite (py_bind_Done _ _ _ _ _ Hrun).
      rewrite (setitem_run _ _ _ _ _ (lookup_weaken _ _ _ _ Hres Hh2)).
      assert (base2 !! result = None) as Hfresh2 by by rewrite Hsame by eauto.
      eexists _, base2, _. split_and!; [done| |apply lookup_insert_eq|done| |done|].
      * rewrite delete_insert_eq. apply delete_mono_from.
        etrans; [apply delete_subseteq|done].
      * by apply insert_subseteq_r.
      * apply dict_set_repr; [|done]. by eapply item_repr_mono.
    + eexists h, base, vres. split_and!; try done.
      by destruct jcur, jv.
  - (* a new key *)
    rewrite (setitem_run _ _ _ _ _ Hres).
    eexists _, base, _. split_and!; [done| |apply lookup_insert_eq|done| |done|].
    + apply delete_subseteq_insert.
    + by apply insert_subseteq_r.
    + by apply dict_set_repr.
Qed.

Lemma fold_left_loop_step_None (items acc : dict) :
  fold_left (loop_step None) items acc = _merge_dict_recursive acc items.
Proof.
  rewrite _merge_dict_recursive_unfold. revert acc.
  induction items as [|[k v] items IH]; intros acc; [done|]. cbn [fold_left]. apply IH.
Qed.


Lemma frame_lookup (h h' : heap) (l i : loc) (x : obj) :
  delete l h ⊆ delete l h' -> i <> l -> h !! i = Some x -> h' !! i = Some x.
Proof.
  intros Hsub Hne Hi.
  assert (delete l h' !! i = Some x) as Hi'.
  { eapply lookup_weaken; [|done]. by rewrite lookup_delete_ne. }
  by rewrite lookup_delete_ne in Hi'.
Qed.

Lemma frame_is_Some (h h' : heap) (l i : loc) :
  delete l h ⊆ delete l h' -> is_Some (h' !! l) -> is_Some (h !! i) ->
  is_Some (h' !! i).
Proof.
  intros Hsub Hl [x Hi]. destruct (decide (i = l)) as [->|Hne]; [done|].
  exists x. by eapply frame_lookup.
Qed.

(** A merge loop from position [i] on, over the mapping at [d2], which
    holds the document [j2]. *)
Lemma merge_loop_returns (fuel : nat) (rec : loc -> loc -> Py loc)
    (src result d2 : loc) (main_items : option dict)
    (j2 : dict) (vitems2 : list (string * val)) :
  merge_returns fuel rec ->
  d2 <> result ->
  (depth (JDict j2) <= S fuel)%nat ->
  forall (rem i : nat) (h base : heap) (resj : dict) (vres : list (string * val)),
    (i + rem = length vitems2)%nat ->
    base ⊆ h ->
    base !! result = None ->
    h !! d2 = Some (ODict vitems2) ->
    Forall2 (item_repr base) j2 vitems2 ->
    h !! result = Some (ODict vres) ->
    Forall2 (item_repr base) resj vres ->
    src_ok base h src result main_items ->
    exists h' base' vres',
      for_each (seq i rem)
        (fun i => py_bind (item_at d2 (length vitems2) i)
                    (fun kv => merge_item_h rec src result (fst kv) (snd kv))) h
      = Done tt h'
      /\ delete result h ⊆ delete result h'
      /\ h' !! result = Some (ODict vres')
      /\ base ⊆ base'
      /\ base' ⊆ h'
      /\ (forall l, is_Some (h !! l) -> base' !! l = base !! l)
      /\ Forall2 (item_repr base')
           (fold_left (loop_step main_items) (drop i j2) resj) vres'.
Proof.
  intros Hrec Hd2 Hdepth.
  induction rem as [|rem IH];
    intros i h base resj vres Hi Hbase Hfresh Hh2 Hj2 Hres Hresj Hsrc.
  - exists h, base, vres. split_and!; try done.
    rewrite drop_ge; [done|]. apply Forall2_length in Hj2. lia.
  - cbn [seq for_each].
    destruct (lookup_lt_is_Some_2 vitems2 i) as [[key value] Hvi]; [lia|].
    destruct (Forall2_lookup_r _ _ _ _ _ Hj2 Hvi) as ([key' jv] & Hji & Hk & Hv).
    cbn [fst snd] in Hk, Hv. subst key'.
    unfold py_bind at 1.
    rewrite (py_bind_Done _ _ _ _ _ (item_at_run _ _ _ _ _ Hh2 Hvi)). cbn [fst snd].
    assert (depth jv <= fuel)%nat as Hjv.
    { pose proof (list_elem_of_lookup_2 j2 i _ Hji) as Hin.
      rewrite list_elem_of_In in Hin. apply depth_item in Hin. lia. }
    assert (exists srcj vsrc,
              h !! src = Some (ODict vsrc)
              /\ Forall2 (item_repr base) srcj vsrc
              /\ default resj main_items = srcj) as (srcj & vsrc & Hs & Hsj & Hdef).
    { destruct main_items as [mj|]; cbn [src_ok] in Hsrc.
      - destruct Hsrc as (_ & vmain & ? & ?). by exists mj, vmain.
      - subst src. by exists resj, vres. }
    destruct (merge_item_h_returns fuel rec base h src result key value
                srcj resj vsrc vres jv)
      as (h1 & base1 & vres1 & -> & Hframe1 & Hres1 & Hb1 & Hb1h & Hsame1 & Hrepr1);
      try done.
    assert (forall l, is_Some (h !! l) -> is_Some (h1 !! l)) as Hdom.
    { intros l. apply (frame_is_Some h h1 result); [done|by eauto]. }
    destruct (IH (S i) h1 base1 (loop_step main_items resj (key, jv)) vres1)
      as (h' & base' & vres' & Hrun & Hframe & Hres' & Hb' & Hb'h & Hsame' & Hrepr');
      try done.
    + lia.
    + rewrite Hsame1 by eauto. done.
    + by apply (frame_lookup h h1 result).
    + by eapply item_repr_mono.
    + unfold loop_step. cbn [fst snd]. by rewrite Hdef.
    + destruct main_items as [mj|]; cbn [src_ok] in *; [|done].
      destruct Hsrc as (Hne & vmain & Hm & Hmj). split; [done|].
      exists vmain. split; [by apply (frame_lookup h h1 result)|by eapply item_repr_mono].
    + exists h', base', vres'. rewrite Hrun. split_and!; try done.
      * by etrans.
      * by etrans.
      * intros l Hl. rewrite Hsame' by auto. by apply Hsame1.
      * by rewrite (drop_S _ _ _ Hji).
Qed.

Lemma for_items_unfold (d : loc) (body : string -> val -> Py unit) (h : heap)
    (items : list (string * val)) :
  h !! d = Some (ODict items) ->
  for_items d body h
  = for_each (seq 0 (length items))
      (fun i => py_bind (item_at d (length items) i)
                  (fun kv => body (fst kv) (snd kv))) h.
Proof.
  intros Hd. unfold for_items.
  by rewrite (py_bind_Done _ _ _ _ _ (dict_len_run _ _ _ Hd)).
Qed.

(** [_merge_dict_recursive] on objects returns, whatever shares what in
    the store, once the fuel covers the nesting of the incoming mapping. *)
Lemma merge_dict_recursive_h_returns (fuel : nat) :
  merge_returns fuel (merge_dict_recursive_h fuel).
Proof.
  induction fuel as [|fuel IH]; intros base h d1 d2 j1 j2 Hdepth Hbase H1 H2.
  { cbn [depth] in Hdepth. lia. }
  destruct (repr_dict_inv _ _ _ H1) as (l1 & v1 & [= <-] & Hl1 & Hv1).
  destruct (repr_dict_inv _ _ _ H2) as (l2 & v2 & [= <-] & Hl2 & Hv2).
  pose proof (lookup_weaken _ _ _ _ Hl1 Hbase) as Hh1.
  pose proof (lookup_weaken _ _ _ _ Hl2 Hbase) as Hh2.
  pose proof (fresh_lookup h) as Hfresh.
  set (result := fresh (dom h)) in *.
  assert (d2 <> result) as Hne by congruence.
  assert (base !! result = None) as Hbfresh.
  { destruct (base !! result) eqn:Hb; [|done].
    by rewrite (lookup_weaken _ _ _ _ Hb Hbase) in Hfresh. }
  cbn [merge_dict_recursive_h].
  rewrite (py_bind_Done _ _ _ _ _ (dict_copy_run _ _ _ Hh1)). fold result.
  set (h0 := <[result := ODict v1]> h).
  assert (h0 !! d2 = Some (ODict v2)) as Hh02 by by unfold h0; rewrite lookup_insert_ne.
  unfold py_bind at 1. rewrite (for_items_unfold d2 _ h0 v2 Hh02).
  destruct (merge_loop_returns fuel (merge_dict_recursive_h fuel) result result d2
              None j2 v2 IH Hne Hdepth (length v2) 0%nat h0 base j1 v1)
    as (h' & base' & vres' & Hrun & Hframe & Hres' & Hb' & Hb'h & Hsame & Hrepr);
    try done.
  { by apply insert_subseteq_r. }
  { apply lookup_insert_eq. }
  rewrite Hrun. unfold py_ret.
  assert (base' !! result = None) as Hb'fresh.
  { rewrite Hsame; [done|]. unfold h0. rewrite lookup_insert_eq. eauto. }
  assert (h ⊆ h') as Hhh'.
  { etrans; [|apply delete_subseteq]. etrans; [|exact Hframe].
    unfold h0. by rewrite delete_insert_eq, delete_id. }
  exists result, h', (<[result := ODict vres']> base').
  split_and!; try done.
  - etrans; [exact Hb'|]. by apply insert_subseteq.
  - by apply insert_subseteq_l.
  - intros l Hl. assert (l <> result) as Hlr by by intros ->; destruct Hl; congruence.
    rewrite lookup_insert_ne by done. apply Hsame.
    unfold h0. by rewrite lookup_insert_ne.
  - eapply repr_dict; [apply lookup_insert_eq|].
    rewrite <-fold_left_loop_step_None. rewrite drop_0 in Hrepr.
    eapply item_repr_mono; [|exact Hrepr]. by apply insert_subseteq.
Qed.


(** The same for [_merge_dict_recursive] on two mappings of the store: the
    result is a new object, and no object of the store changes. *)
Lemma merge_dict_recursive_h_frame (h : heap) (d1 d2 : loc) (j1 j2 : dict) :
  repr h (JDict j1) (VRef d1) ->
  repr h (JDict j2) (VRef d2) ->
  exists r h',
    merge_dict_recursive_h (depth (JDict j2)) d1 d2 h = Done r h'
    /\ (forall l o, h !! l = Some o -> h' !! l = Some o)
    /\ h !! r = None
    /\ repr h' (JDict (_merge_dict_recursive j1 j2)) (VRef r).
Proof.
  intros H1 H2.
  destruct (merge_dict_recursive_h_returns (depth (JDict j2)) h h d1 d2 j1 j2)
    as (r & h' & base' & Hrun & Hsub & Hfresh & _ & Hbase' & _ & Hrepr); try done.
  exists r, h'. split_and!; [done| |done|by eapply repr_mono].
  intros l o Hl. by eapply lookup_weaken.
Qed.



(** The run on the example store: the result is the new object 6, it
    holds the incoming list object 5 itself and the new merge 7 of the two
    nested mappings, and the two inputs 1 and 3 are as they were. *)
Example merge_documents_h_example :
  let run := merge_documents_h 2 (VRef 1%nat) (VRef 3%nat) example_store in
  run_value run = Some (VRef 6%nat)
  /\ run_lookup run 6%nat
     = Some (ODict [("a", VRef 7%nat); ("v", VStr "1.0.1"); ("b", VRef 5%nat)])
  /\ run_lookup run 7%nat = Some (ODict [("x", VInt 1); ("y", VInt 5)])
  /\ run_lookup run 1%nat = example_store !! 1%nat
  /\ run_lookup run 3%nat = example_store !! 3%nat.
Proof. vm_compute. split_and!; reflexivity. Qed.

(** Both arguments may be the same object: the result is still a copy. *)
Example merge_documents_h_aliased :
  let run := merge_documents_h 2 (VRef 1%nat) (VRef 1%nat) example_store in
  run_value run = Some (VRef 6%nat)
  /\ run_lookup run 1%nat = example_store !! 1%nat.
Proof. vm_compute. split; reflexivity. Qed.

(** ** The resolver *)

Section resolver_lemmas.
Context `{Host}.

Lemma state_eq (st st' : state) :
  st_world st = st_world st' ->
  st_printed st = st_printed st' ->
  st_trace st = st_trace st' ->
  st_conflicts st = st_conflicts st' ->
  st = st'.
Proof. destruct st, st'; simpl. by intros -> -> -> ->. Qed.

Lemma advance_advance (st : state) (w1 w2 : world) (l1 l2 : list string)
    (e1 e2 : list event) :
  advance (advance st w1 l1 e1) w2 l2 e2 = advance st w2 (l1 ++ l2) (e1 ++ e2).
Proof. apply state_eq; simpl; by rewrite ?app_assoc. Qed.

Lemma advance_id (st : state) : advance st (st_world st) [] [] = st.
Proof. apply state_eq; simpl; by rewrite ?app_nil_r. Qed.

Lemma bind_run {A B} (m : M A) (k : A -> M B) (st st' : state) (a : A) :
  m st = (inr a, st') -> bind m k st = k a st'.
Proof. unfold bind. by intros ->. Qed.

Lemma bind_raise {A B} (m : M A) (k : A -> M B) (st st' : state) (e : exn) :
  m st = (inl e, st') -> bind m k st = (inl e, st').
Proof. unfold bind. by intros ->. Qed.

Lemma print_run (line : string) (st : state) (w : world) (lines : list string)
    (events : list event) :
  print line (advance st w lines events)
  = (inr tt, advance st w (lines ++ [line]) events).
Proof. unfold print, advance. cbn [st_world st_printed st_trace st_conflicts]. by rewrite app_assoc. Qed.

Lemma subprocess_run_run (cmd : list string) (cwd : option string) (st : state)
    (w w' : world) (lines : list string) (events : list event)
    (r : CompletedProcess) :
  run_git cmd cwd w = (r, w') ->
  subprocess_run cmd cwd (advance st w lines events)
  = (inr r, advance st w' lines (events ++ [Git cmd cwd])).
Proof.
  unfold subprocess_run, advance. cbn [st_world]. intros ->.
  cbn [st_printed st_trace st_conflicts]. by rewrite app_assoc.
Qed.

Lemma open_write_run (path content : string) (st : state) (w w' : world)
    (lines : list string) (events : list event) :
  write_file path content w = (None, w') ->
  open_write path content (advance st w lines events)
  = (inr tt, advance st w' lines (events ++ [WriteFile path content])).
Proof.
  unfold open_write, advance. cbn [st_world]. intros ->.
  cbn [st_printed st_trace st_conflicts]. by rewrite app_assoc.
Qed.

Lemma open_write_raise (path content msg : string) (st : state) (w w' : world)
    (lines : list string) (events : list event) :
  write_file path content w = (Some msg, w') ->
  open_write path content (advance st w lines events)
  = (inl (OSError msg), advance st w' lines (events ++ [WriteFile path content])).
Proof.
  unfold open_write, advance. cbn [st_world]. intros ->.
  cbn [st_printed st_trace st_conflicts]. by rewrite app_assoc.
Qed.

(** Proofs about a method start from [advance st (st_world st) [] []]. *)
Lemma bind_assoc {A B C} (m : M A) (f : A -> M B) (g : B -> M C) (st : state) :
  bind (bind m f) g st = bind m (fun x => bind (f x) g) st.
Proof. unfold bind. by destruct (m st) as [[e|a] st']. Qed.

Lemma try_except_returns {A} (body : M A) (handler : exn -> M A)
    (st st' : state) (a : A) :
  body st = (inr a, st') -> try_except body handler st = (inr a, st').
Proof. unfold try_except. by intros ->. Qed.

Lemma try_except_handles {A} (body : M A) (handler : exn -> M A)
    (st st' : state) (e : exn) :
  body st = (inl e, st') -> is_Exception e = true ->
  try_except body handler st = handler e st'.
Proof. unfold try_except. by intros -> ->. Qed.

Lemma try_except_passes {A} (body : M A) (handler : exn -> M A)
    (st st' : state) (e : exn) :
  body st = (inl e, st') -> is_Exception e = false ->
  try_except body handler st = (inl e, st').
Proof. unfold try_except. by intros -> ->. Qed.

(** Proofs about a method start from [advance st (st_world st) [] []]. *)
Ltac from_state st := rewrite <-(advance_id st) at 1.
Ltac step_print :=
  rewrite ?bind_assoc; rewrite (bind_run _ _ _ _ _ (print_run _ _ _ _ _)).
Ltac step_git Hrun :=
  rewrite ?bind_assoc;
  rewrite (bind_run _ _ _ _ _ (subprocess_run_run _ _ _ _ _ _ _ _ Hrun)).
Ltac step_write Hw :=
  rewrite ?bind_assoc;
  rewrite (bind_run _ _ _ _ _ (open_write_run _ _ _ _ _ _ _ Hw)).

(** The loop body of [resolve_all_conflicts] calls the method of the
    strategy of the path, then the default when that did not resolve it. *)
Lemma resolve_file_strategy (repo_root filepath : string) :
  resolve_file repo_root filepath
  = bind (strategy_for repo_root filepath)
      (fun resolved => if negb resolved
                       then resolve_default_conflict repo_root filepath
                       else ret resolved).
Proof.
  unfold resolve_file, strategy_for, classify, is_readme, is_json_or_config.
  destruct (endswith (lower filepath) "readme.md"); [done|].
  by destruct (endswith filepath ".json" || contains (lower filepath) "config")%bool.
Qed.

(** [resolve_default_conflict] when [HEAD] has the file and it can be
    written: the working file gets the content at [HEAD] and is staged. *)
Lemma resolve_default_conflict_resolves (repo_root filepath : string) (st : state)
    (shown added : CompletedProcess) (w1 w2 w3 : world) :
  run_git ["git"; "show"; "HEAD:" +:+ filepath] (Some repo_root) (st_world st)
  = (shown, w1) ->
  returncode shown = 0 ->
  write_file (path_join repo_root filepath) (stdout shown) w1 = (None, w2) ->
  run_git ["git"; "add"; filepath] (Some repo_root) w2 = (added, w3) ->
  resolve_default_conflict repo_root filepath st
  = (inr true,
     advance st w3
       ["Resolving conflict using main branch preference: " +:+ filepath;
        "✓ Resolved using main branch content: " +:+ filepath]
       [Git ["git"; "show"; "HEAD:" +:+ filepath] (Some repo_root);
        WriteFile (path_join repo_root filepath) (stdout shown);
        Git ["git"; "add"; filepath] (Some repo_root)]).
Proof.
  intros Hshow Hcode Hwrite Hadd. unfold resolve_default_conflict, _run_git_command.
  from_state st. step_print. step_git Hshow.
  rewrite Hcode. cbn [Z.eqb].
  step_write Hwrite. step_git Hadd. step_print. done.
Qed.

(** [resolve_readme_conflict] when the file cannot be read at
    [MERGE_HEAD]: it returns [False] after that one read. *)
Lemma resolve_readme_conflict_unread (repo_root filepath : string) (st : state)
    (shown : CompletedProcess) (w1 : world) :
  is_readme filepath = true ->
  run_git ["git"; "show"; "MERGE_HEAD:" +:+ filepath] (Some repo_root) (st_world st)
  = (shown, w1) ->
  returncode shown <> 0 ->
  resolve_readme_conflict repo_root filepath st
  = (inr false,
     advance st w1 ["Resolving README.md conflict: " +:+ filepath]
       [Git ["git"; "show"; "MERGE_HEAD:" +:+ filepath] (Some repo_root)]).
Proof.
  intros Hdoc Hshow Hcode. unfold resolve_readme_conflict, _run_git_command.
  unfold is_readme in Hdoc. rewrite Hdoc. cbn [negb].
  from_state st. step_print. step_git Hshow.
  apply Z.eqb_neq in Hcode. by rewrite Hcode.
Qed.

(** [resolve_json_conflict] when a read at either revision exits non-zero:
    it returns [False] after the two reads. *)
Lemma resolve_json_conflict_unread (repo_root filepath : string) (st : state)
    (cur inc : CompletedProcess) (w1 w2 : world) :
  is_json_or_config filepath = true ->
  run_git ["git"; "show"; "HEAD:" +:+ filepath] (Some repo_root) (st_world st)
  = (cur, w1) ->
  run_git ["git"; "show"; "MERGE_HEAD:" +:+ filepath] (Some repo_root) w1
  = (inc, w2) ->
  returncode cur <> 0 \/ returncode inc <> 0 ->
  resolve_json_conflict repo_root filepath st
  = (inr false,
     advance st w2 ["Resolving JSON/config conflict: " +:+ filepath]
       [Git ["git"; "show"; "HEAD:" +:+ filepath] (Some repo_root);
        Git ["git"; "show"; "MERGE_HEAD:" +:+ filepath] (Some repo_root)]).
Proof.
  intros Hjson Hcur Hinc Hcode. unfold resolve_json_conflict, _run_git_command.
  unfold is_json_or_config in Hjson. rewrite Hjson. cbn [negb].
  from_state st. step_print. unfold try_except. step_git Hcur. step_git Hinc.
  assert ((negb (Z.eqb (returncode cur) 0) || negb (Z.eqb (returncode inc) 0))%bool
          = true) as ->; [|done].
  apply orb_true_iff. by rewrite !negb_true_iff, !Z.eqb_neq.
Qed.

(** [resolve_json_conflict] when both reads succeed and one of the two
    contents is not JSON: the handler prints the error and returns
    [False]. *)
Lemma resolve_json_conflict_unparsed (repo_root filepath : string) (st : state)
    (cur inc : CompletedProcess) (w1 w2 : world) (msg : string) :
  is_json_or_config filepath = true ->
  run_git ["git"; "show"; "HEAD:" +:+ filepath] (Some repo_root) (st_world st)
  = (cur, w1) ->
  run_git ["git"; "show"; "MERGE_HEAD:" +:+ filepath] (Some repo_root) w1
  = (inc, w2) ->
  returncode cur = 0 ->
  returncode inc = 0 ->
  json_loads (stdout cur) = inl msg
  \/ (exists data, json_loads (stdout cur) = inr data)
     /\ json_loads (stdout inc) = inl msg ->
  resolve_json_conflict repo_root filepath st
  = (inr false,
     advance st w2
       ["Resolving JSON/config conflict: " +:+ filepath;
        "✗ Failed to merge JSON file " +:+ filepath +:+ ": " +:+ msg]
       [Git ["git"; "show"; "HEAD:" +:+ filepath] (Some repo_root);
        Git ["git"; "show"; "MERGE_HEAD:" +:+ filepath] (Some repo_root)]).
Proof.
  intros Hjson Hcur Hinc Hc1 Hc2 Hparse. unfold resolve_json_conflict, _run_git_command.
  unfold is_json_or_config in Hjson. rewrite Hjson. cbn [negb].
  from_state st. step_print. unfold try_except. step_git Hcur. step_git Hinc.
  rewrite Hc1, Hc2. cbn [Z.eqb negb orb].
  unfold loads.
  destruct Hparse as [Hmain|[[data Hmain] Hhead]]; rewrite Hmain.
  - rewrite (bind_raise _ _ _ _ _ (eq_refl : raise _ _ = _)). cbn [is_Exception].
    by step_print.
  - rewrite (bind_run _ _ _ _ _ (eq_refl : ret data _ = _)). rewrite Hhead.
    rewrite (bind_raise _ _ _ _ _ (eq_refl : raise _ _ = _)). cbn [is_Exception].
    by step_print.
Qed.

(** C4: whenever the method of the classified strategy returns [False],
    the loop body runs the default strategy (PreferCurrent) on the same
    path, from the state the failed method left. That is the case for a
    documentation file whose read at the incoming revision exits non-zero
    (the file is absent there), for a structured file when a read at either
    revision exits non-zero, and for a structured file whose content at
    either revision is not JSON. In particular a documentation file that is
    missing at the incoming revision and present at the current one is
    resolved: the working file gets the content of the current revision and
    is staged. *)
Theorem C4_fallback_to_default (repo_root filepath : string) (st : state) :
  (forall st',
     strategy_for repo_root filepath st = (inr false, st') ->
     resolve_file repo_root filepath st
     = resolve_default_conflict repo_root filepath st')
  /\ (forall shown w1,
        classify filepath = PreserveIncoming ->
        run_git ["git"; "show"; "MERGE_HEAD:" +:+ filepath] (Some repo_root)
          (st_world st) = (shown, w1) ->
        returncode shown <> 0 ->
        resolve_file repo_root filepath st
        = resolve_default_conflict repo_root filepath
            (advance st w1 ["Resolving README.md conflict: " +:+ filepath]
               [Git ["git"; "show"; "MERGE_HEAD:" +:+ filepath] (Some repo_root)]))
  /\ (forall cur inc w1 w2,
        classify filepath = StructuredMerge ->
        run_git ["git"; "show"; "HEAD:" +:+ filepath] (Some repo_root)
          (st_world st) = (cur, w1) ->
        run_git ["git"; "show"; "MERGE_HEAD:" +:+ filepath] (Some repo_root) w1
        = (inc, w2) ->
        returncode cur <> 0 \/ returncode inc <> 0 ->
        resolve_file repo_root filepath st
        = resolve_default_conflict repo_root filepath
            (advance st w2 ["Resolving JSON/config conflict: " +:+ filepath]
               [Git ["git"; "show"; "HEAD:" +:+ filepath] (Some repo_root);
                Git ["git"; "show"; "MERGE_HEAD:" +:+ filepath] (Some repo_root)]))
  /\ (forall cur inc w1 w2 msg,
        classify filepath = StructuredMerge ->
        run_git ["git"; "show"; "HEAD:" +:+ filepath] (Some repo_root)
          (st_world st) = (cur, w1) ->
        run_git ["git"; "show"; "MERGE_HEAD:" +:+ filepath] (Some repo_root) w1
        = (inc, w2) ->
        returncode cur = 0 ->
        returncode inc = 0 ->
        json_loads (stdout cur) = inl msg
        \/ (exists data, json_loads (stdout cur) = inr data)
           /\ json_loads (stdout inc) = inl msg ->
        resolve_file repo_root filepath st
        = resolve_default_conflict repo_root filepath
            (advance st w2
               ["Resolving JSON/config conflict: " +:+ filepath;
                "✗ Failed to merge JSON file " +:+ filepath +:+ ": " +:+ msg]
               [Git ["git"; "show"; "HEAD:" +:+ filepath] (Some repo_root);
                Git ["git"; "show"; "MERGE_HEAD:" +:+ filepath] (Some repo_root)]))
  /\ (forall shown cur added w1 w2 w3 w4,
        classify filepath = PreserveIncoming ->
        run_git ["git"; "show"; "MERGE_HEAD:" +:+ filepath] (Some repo_root)
          (st_world st) = (shown, w1) ->
        returncode shown <> 0 ->
        run_git ["git"; "show"; "HEAD:" +:+ filepath] (Some repo_root) w1
        = (cur, w2) ->
        returncode cur = 0 ->
        write_file (path_join repo_root filepath) (stdout cur) w2 = (None, w3) ->
        run_git ["git"; "add"; filepath] (Some repo_root) w3 = (added, w4) ->
        resolve_file repo_root filepath st
        = (inr true,
           advance st w4
             ["Resolving README.md conflict: " +:+ filepath;
              "Resolving conflict using main branch preference: " +:+ filepath;
              "✓ Resolved using main branch content: " +:+ filepath]
             [Git ["git"; "show"; "MERGE_HEAD:" +:+ filepath] (Some repo_root);
              Git ["git"; "show"; "HEAD:" +:+ filepath] (Some repo_root);
              WriteFile (path_join repo_root filepath) (stdout cur);
              Git ["git"; "add"; filepath] (Some repo_root)])).
Proof.
  assert (forall st',
            strategy_for repo_root filepath st = (inr false, st') ->
            resolve_file repo_root filepath st
            = resolve_default_conflict repo_root filepath st') as Hfallback.
  { intros st' Hrun. rewrite resolve_file_strategy.
    by rewrite (bind_run _ _ _ _ _ Hrun). }
  assert (forall shown w1,
            classify filepath = PreserveIncoming ->
            run_git ["git"; "show"; "MERGE_HEAD:" +:+ filepath] (Some repo_root)
              (st_world st) = (shown, w1) ->
            returncode shown <> 0 ->
            resolve_file repo_root filepath st
            = resolve_default_conflict repo_root filepath
                (advance st w1 ["Resolving README.md conflict: " +:+ filepath]
                   [Git ["git"; "show"; "MERGE_HEAD:" +:+ filepath] (Some repo_root)]))
    as Hdoc.
  { intros shown w1 Hclass Hshow Hcode. apply Hfallback.
    unfold strategy_for. rewrite Hclass.
    apply resolve_readme_conflict_unread with shown; [|done..].
    by apply classify_PreserveIncoming. }
  split_and!; [done|done| | |].
  - intros cur inc w1 w2 Hclass Hcur Hinc Hcode. apply Hfallback.
    unfold strategy_for. rewrite Hclass.
    apply resolve_json_conflict_unread with cur inc w1; [|done..].
    by apply classify_StructuredMerge in Hclass as [_ ?].
  - intros cur inc w1 w2 msg Hclass Hcur Hinc Hc1 Hc2 Hparse. apply Hfallback.
    unfold strategy_for. rewrite Hclass.
    apply resolve_json_conflict_unparsed with cur inc w1; [|done..].
    by apply classify_StructuredMerge in Hclass as [_ ?].
  - intros shown cur added w1 w2 w3 w4 Hclass Hshow Hcode Hcur Hc Hwrite Hadd.
    rewrite (Hdoc shown w1) by done.
    rewrite (resolve_default_conflict_resolves repo_root filepath _ cur added w2 w3 w4)
      by done.
    by rewrite advance_advance.
Qed.

(** C10: when the command that lists the conflicted paths exits non-zero,
    [detect_conflicts] returns the empty list, and [resolve_all_conflicts]
    prints that no conflicts were detected and returns [True]; the listing
    is the only command it ran: nothing was read, written or staged. A
    repository without conflicts (exit status 0 and no path listed) gives
    the same return value, the same output and the same commands. *)
Theorem C10_listing_failure (repo_root : string) (st : state)
    (listed : CompletedProcess) (w : world) :
  run_git ["git"; "diff"; "--name-only"; "--diff-filter=U"] (Some repo_root)
    (st_world st) = (listed, w) ->
  returncode listed <> 0 ->
  detect_conflicts repo_root st
  = (inr [],
     advance st w []
       [Git ["git"; "diff"; "--name-only"; "--diff-filter=U"] (Some repo_root)])
  /\ resolve_all_conflicts repo_root st
     = (inr true,
        advance st w ["No merge conflicts detected."]
          [Git ["git"; "diff"; "--name-only"; "--diff-filter=U"] (Some repo_root)])
  /\ forall (clean : state) (listed' : CompletedProcess) (w' : world),
       run_git ["git"; "diff"; "--name-only"; "--diff-filter=U"] (Some repo_root)
         (st_world clean) = (listed', w') ->
       returncode listed' = 0 ->
       stdout listed' = EmptyString ->
       fst (resolve_all_conflicts repo_root clean) = inr true
       /\ st_printed (snd (resolve_all_conflicts repo_root clean))
          = st_printed clean ++ ["No merge conflicts detected."]
       /\ st_trace (snd (resolve_all_conflicts repo_root clean))
          = st_trace clean
            ++ [Git ["git"; "diff"; "--name-only"; "--diff-filter=U"] (Some repo_root)].
Proof.
  intros Hrun Hcode.
  assert (detect_conflicts repo_root st
          = (inr [],
             advance st w []
               [Git ["git"; "diff"; "--name-only"; "--diff-filter=U"]
                  (Some repo_root)])) as Hdetect.
  { unfold detect_conflicts, _run_git_command. from_state st. step_git Hrun.
    apply Z.eqb_neq in Hcode. by rewrite Hcode. }
  split_and!; [done| |].
  - unfold resolve_all_conflicts. rewrite (bind_run _ _ _ _ _ Hdetect). by step_print.
  - intros clean listed' w' Hrun' Hcode' Hout.
    unfold resolve_all_conflicts, detect_conflicts, _run_git_command.
    unfold bind, subprocess_run. rewrite Hrun', Hcode', Hout. by cbn.
Qed.

(** C6 (amended): invoked outside a repository, the script runs the one
    command that looks for the repository root, prints the error and exits
    with status 1. *)
Theorem C6_outside_repository (st : state) (found : CompletedProcess) (w : world) :
  run_git ["git"; "rev-parse"; "--show-toplevel"] None (st_world st) = (found, w) ->
  returncode found <> 0 ->
  main st
  = (inl (SystemExit 1),
     advance st w
       ["WebQx Automated Conflict Resolution";
        "===================================";
        String newline "✗ Error during conflict resolution: Not in a git repository"]
       [Git ["git"; "rev-parse"; "--show-toplevel"] None])
  /\ exit_status (fst (main st)) = 1.
Proof.
  intros Hrun Hcode.
  assert (main st
          = (inl (SystemExit 1),
             advance st w
               ["WebQx Automated Conflict Resolution";
                "===================================";
                String newline
                  "✗ Error during conflict resolution: Not in a git repository"]
               [Git ["git"; "rev-parse"; "--show-toplevel"] None])) as Hmain.
  { unfold main. from_state st. step_print. step_print.
    match goal with
    | |- try_except ?body _ ?s = _ =>
        assert (body s
                = (inl (RuntimeError "Not in a git repository"),
                   advance st w
                     ["WebQx Automated Conflict Resolution";
                      "==================================="]
                     [Git ["git"; "rev-parse"; "--show-toplevel"] None])) as Hbody
    end.
    { unfold ConflictResolver, _get_repo_root. step_git Hrun.
      apply Z.eqb_neq in Hcode. by rewrite Hcode. }
    rewrite (try_except_handles _ _ _ _ _ Hbody eq_refl). by step_print. }
  split; [done|]. by rewrite Hmain.
Qed.

(** Once every conflict is resolved, [main] does not look at what
    [commit_resolution] returns: it prints the success line and exits with
    status 0 whether the commit was made or refused. *)
Lemma main_ignores_commit_result (st st1 st2 st3 : state) (resolver : string)
    (committed : bool) :
  ConflictResolver
    (advance st (st_world st)
       ["WebQx Automated Conflict Resolution";
        "==================================="] [])
  = (inr resolver, st1) ->
  resolve_all_conflicts resolver st1 = (inr true, st2) ->
  commit_resolution resolver "Auto-resolve merge conflicts following WebQx rules" st2
  = (inr committed, st3) ->
  main st
  = (inl (SystemExit 0),
     advance st3 (st_world st3)
       [String newline "✓ All conflicts resolved successfully!"] []).
Proof.
  intros Hinit Hresolve Hcommit.
  unfold main. from_state st. step_print. step_print.
  match goal with
  | |- try_except ?body _ ?s = _ =>
      assert (body s
              = (inl (SystemExit 0),
                 advance st3 (st_world st3)
                   [String newline "✓ All conflicts resolved successfully!"] []))
        as Hbody
  end.
  { rewrite (bind_run _ _ _ _ _ Hinit), (bind_run _ _ _ _ _ Hresolve).
    cbv beta iota. rewrite (bind_run _ _ _ _ _ Hcommit).
    rewrite <-(advance_id st3) at 1. by step_print. }
  by rewrite (try_except_passes _ _ _ _ _ Hbody eq_refl).
Qed.

End resolver_lemmas.

(** ** The script on the simulated repository *)

Lemma C4_fallback_to_default_witness :
  @resolve_file sim_host "/repo" "README.md" (@initial_state sim_host sim_conflicted)
  = (inr true,
     @advance sim_host (@initial_state sim_host sim_conflicted)
       (snd (sim_run_git ["git"; "add"; "README.md"] (Some "/repo")
               (snd (sim_write_file "/repo/README.md" "# current" sim_conflicted))))
       ["Resolving README.md conflict: README.md";
        "Resolving conflict using main branch preference: README.md";
        "✓ Resolved using main branch content: README.md"]
       [Git ["git"; "show"; "MERGE_HEAD:README.md"] (Some "/repo");
        Git ["git"; "show"; "HEAD:README.md"] (Some "/repo");
        WriteFile "/repo/README.md" "# current";
        Git ["git"; "add"; "README.md"] (Some "/repo")]).
Proof.
  apply (proj2 (proj2 (proj2 (proj2
           (@C4_fallback_to_default sim_host "/repo" "README.md"
              (@initial_state sim_host sim_conflicted)))))
           (completed 128 EmptyString "fatal: path does not exist")
           (completed 0 "# current" EmptyString)
           (completed 0 EmptyString EmptyString)
           sim_conflicted sim_conflicted
           (snd (sim_write_file "/repo/README.md" "# current" sim_conflicted))).
  - reflexivity.
  - reflexivity.
  - discriminate.
  - reflexivity.
  - reflexivity.
  - reflexivity.
  - reflexivity.
Defined.

(** The documentation file that is missing at the incoming revision gets
    the content of the current revision. *)
Example readme_missing_at_incoming :
  let run := @resolve_file sim_host "/repo" "README.md"
               (@initial_state sim_host sim_conflicted) in
  fst run = inr true
  /\ sim_worktree (st_world (snd run)) = [("/repo/README.md", "# current")]
  /\ sim_staged (st_world (snd run)) = ["README.md"].
Proof. vm_compute. done. Qed.

Lemma C10_listing_failure_witness :
  @detect_conflicts sim_host "/repo" (@initial_state sim_host sim_listing_fails)
  = (inr [],
     @advance sim_host (@initial_state sim_host sim_listing_fails) sim_listing_fails []
       [Git ["git"; "diff"; "--name-only"; "--diff-filter=U"] (Some "/repo")])
  /\ @resolve_all_conflicts sim_host "/repo" (@initial_state sim_host sim_listing_fails)
     = (inr true,
        @advance sim_host (@initial_state sim_host sim_listing_fails) sim_listing_fails
          ["No merge conflicts detected."]
          [Git ["git"; "diff"; "--name-only"; "--diff-filter=U"] (Some "/repo")]).
Proof.
  destruct (@C10_listing_failure sim_host "/repo"
              (@initial_state sim_host sim_listing_fails)
              (completed 129 EmptyString "error: could not read the index")
              sim_listing_fails) as (Hdetect & Hresolve & _).
  - reflexivity.
  - discriminate.
  - split; [exact Hdetect|exact Hresolve].
Defined.

(** C6, as stated, fails: outside a repository the exit status is 1. *)
Lemma C6_exit_status_counterexample :
  returncode (fst (sim_run_git ["git"; "rev-parse"; "--show-toplevel"] None sim_outside))
  <> 0
  /\ exit_status (fst (@main sim_host (@initial_state sim_host sim_outside))) = 1
  /\ exit_status (fst (@main sim_host (@initial_state sim_host sim_outside))) <> 0.
Proof. vm_compute. split_and!; [discriminate|reflexivity|discriminate]. Qed.

Lemma C6_outside_repository_witness :
  exit_status (fst (@main sim_host (@initial_state sim_host sim_outside))) = 1.
Proof.
  apply (@C6_outside_repository sim_host (@initial_state sim_host sim_outside)
           (completed 128 EmptyString "fatal: not a git repository") sim_outside).
  - reflexivity.
  - discriminate.
Defined.

(** C5 fails on the code: the conflict on [README.md] is resolved and
    staged, the commit is refused, [commit_resolution] prints the failure
    and returns [False], and [main] still prints the success line and exits
    with status 0. *)
Theorem C5_commit_failure_exits_zero :
  let run := @main sim_host (@initial_state sim_host sim_commit_refused) in
  exit_status (fst run) = 0
  /\ st_printed (snd run)
     = ["WebQx Automated Conflict Resolution";
        "===================================";
        "Found 1 conflict(s) to resolve:";
        "  - README.md";
        "Resolving README.md conflict: README.md";
        "✓ Preserved README.md from source branch: README.md";
        String newline "Resolved 1/1 conflicts.";
        "✗ Failed to commit: error: commit failed";
        String newline "✓ All conflicts resolved successfully!"]
  /\ sim_staged (st_world (snd run)) = ["README.md"]
  /\ last (st_trace (snd run))
     = Some (Git ["git"; "commit"; "-m";
                  "Auto-resolve merge conflicts following WebQx rules"]
               (Some "/repo")).
Proof. vm_compute. split_and!; reflexivity. Qed.

(** * Further properties of the script *)

(** ** The merge: order of keys, one-sided keys, well-formed results *)

Lemma dict_set_same {V} (d : list (string * V)) (key : string) (value : V) :
  dict_get d key = Some value -> dict_set d key value = d.
Proof.
  induction d as [|[k v] d IH]; simpl; [done|].
  destruct (String.eqb_spec k key) as [-> | Hk].
  - by intros [= ->].
  - intros Hget. by rewrite IH.
Qed.

Lemma dict_get_In_NoDup {V} (d : list (string * V)) (key : string) (value : V) :
  NoDup (map fst d) -> In (key, value) d -> dict_get d key = Some value.
Proof.
  induction d as [|[k v] d IH]; simpl; [done|].
  intros [Hk Hnd]%NoDup_cons [[= -> ->]|Hin].
  - by rewrite String.eqb_refl.
  - destruct (String.eqb_spec k key) as [-> | Hne]; [|by auto].
    destruct Hk. apply list_elem_of_In. by apply (in_map fst) in Hin.
Qed.

Lemma In_dict_set {V} (d : list (string * V)) (key : string) (value : V)
    (kv : string * V) :
  In kv (dict_set d key value) -> kv = (key, value) \/ In kv d.
Proof.
  induction d as [|[k v] d IH]; simpl.
  - intros [<-|[]]. by left.
  - destruct (String.eqb_spec k key) as [-> | Hne]; simpl.
    + intros [<-|Hin]; auto.
    + intros [<-|Hin]; [by auto|]. destruct (IH Hin); auto.
Qed.

Lemma dict_has_keys {V W} (d : list (string * V)) (d' : list (string * W))
    (key : string) :
  map fst d = map fst d' -> dict_has d key = dict_has d' key.
Proof.
  intros Hkeys. apply eq_true_iff_eq. by rewrite !dict_has_In, Hkeys.
Qed.

(** One loop iteration appends the key when it is new and keeps the keys
    as they are otherwise. *)
Lemma merge_item_keys (result : dict) (key : string) (value : json) :
  keys (merge_item merge_into result result key value)
  = if dict_has result key then keys result else keys result ++ [key].
Proof.
  unfold merge_item, keys.
  destruct (dict_has result key) eqn:Hhas; cbn [negb].
  - destruct (dict_get result key) as [[]|], value; try done.
    by rewrite dict_set_keys, Hhas.
  - by rewrite dict_set_keys, Hhas.
Qed.

Lemma _merge_dict_recursive_keys_order (dict1 dict2 : dict) :
  NoDup (keys dict2) ->
  keys (_merge_dict_recursive dict1 dict2)
  = keys dict1 ++ List.filter (fun k => negb (dict_has dict1 k)) (keys dict2).
Proof.
  rewrite _merge_dict_recursive_unfold. unfold keys.
  revert dict1. induction dict2 as [|[key value] dict2 IH]; intros dict1 Hnd.
  { by rewrite app_nil_r. }
  apply NoDup_cons in Hnd as [Hkey Hnd]. cbn [fold_left map fst List.filter].
  rewrite IH by done. fold (keys dict1).
  pose proof (merge_item_keys dict1 key value) as Hstep. unfold keys in Hstep.
  destruct (dict_has dict1 key) eqn:Hhas; cbn [negb]; rewrite Hstep.
  - f_equal. apply filter_ext. intros k. f_equal. by apply dict_has_keys.
  - rewrite <-app_assoc. cbn [app]. do 2 f_equal.
    apply filter_ext_in. intros k Hk. f_equal.
    apply eq_true_iff_eq. rewrite !dict_has_In, Hstep, in_app_iff. cbn [In].
    split; [|by auto]. intros [?|[<-|[]]]; [done|].
    destruct Hkey. by apply list_elem_of_In.
Qed.

(** The keys of the merged document are the keys of the current document
    in their order, followed by the keys that only the incoming document
    has, in their order there: no key is invented, none is moved. *)
Theorem merge_keys_order (dict1 dict2 : dict) :
  NoDup (keys dict2) ->
  exists merged,
    merge_documents (JDict dict1) (JDict dict2) = JDict merged
    /\ keys merged
       = keys dict1 ++ List.filter (fun k => negb (dict_has dict1 k)) (keys dict2).
Proof.
  intros Hnd. exists (_merge_dict_recursive dict1 dict2).
  split; [by apply merge_documents_dict|by apply _merge_dict_recursive_keys_order].
Qed.

Lemma merge_keys_order_witness :
  exists merged,
    merge_documents (JDict scenario2_current) (JDict scenario2_incoming) = JDict merged
    /\ keys merged = ["version"; "engines"] ++ ["scripts"].
Proof.
  apply (merge_keys_order scenario2_current scenario2_incoming).
  apply (bool_decide_eq_true_1 (NoDup (keys scenario2_incoming))). reflexivity.
Defined.

(** A key that only one of the two documents has keeps the value it has
    there: the current value when the incoming document lacks the key, the
    whole incoming value when the current document lacks it. *)
Theorem merge_one_sided_key (dict1 dict2 : dict) (k : string) :
  NoDup (keys dict2) ->
  exists merged,
    merge_documents (JDict dict1) (JDict dict2) = JDict merged
    /\ (dict_get dict2 k = None -> dict_get merged k = dict_get dict1 k)
    /\ (dict_get dict1 k = None -> dict_get merged k = dict_get dict2 k).
Proof.
  intros Hnd. exists (_merge_dict_recursive dict1 dict2).
  split; [by apply merge_documents_dict|].
  rewrite _merge_dict_recursive_get by done.
  split; intros ->; [done|]. by destruct (dict_get dict2 k).
Qed.

Lemma merge_one_sided_key_witness :
  exists merged,
    merge_documents (JDict scenario2_current) (JDict scenario2_incoming) = JDict merged
    /\ (dict_get scenario2_incoming "engines" = None
        -> dict_get merged "engines" = dict_get scenario2_current "engines")
    /\ (dict_get scenario2_current "engines" = None
        -> dict_get merged "engines" = dict_get scenario2_incoming "engines").
Proof.
  apply (merge_one_sided_key scenario2_current scenario2_incoming "engines").
  apply (bool_decide_eq_true_1 (NoDup (keys scenario2_incoming))). reflexivity.
Defined.

Lemma wf_json_dict_iff (items : dict) :
  wf_json (JDict items) = true
  <-> NoDup (keys items) /\ forall k v, In (k, v) items -> wf_json v = true.
Proof.
  cbn [wf_json]. rewrite andb_true_iff, bool_decide_eq_true, forallb_forall.
  split; intros [Hnd Hall]; (split; [done|]).
  - intros k v Hin. apply (Hall (k, v) Hin).
  - intros [k v] Hin. by apply (Hall k v).
Qed.

Lemma wf_json_dict_set (items : dict) (key : string) (value : json) :
  wf_json (JDict items) = true -> wf_json value = true ->
  wf_json (JDict (dict_set items key value)) = true.
Proof.
  rewrite !wf_json_dict_iff. intros [Hnd Hall] Hvalue. split.
  - by apply dict_set_NoDup.
  - intros k v [[= -> ->]|Hin]%In_dict_set; [done|by eauto].
Qed.

Lemma merge_into_wf (v2 : json) :
  wf_json v2 = true ->
  forall dict1, wf_json (JDict dict1) = true ->
                wf_json (JDict (merge_into dict1 v2)) = true.
Proof.
  induction v2 as [| | | | |elems _|items IH] using json_ind; try done.
  intros Hwf2 dict1 Hwf1. cbn [merge_into].
  apply wf_json_dict_iff in Hwf2 as [_ Hvalues].
  revert dict1 Hwf1. induction items as [|[key value] items IHitems]; intros dict1 Hwf1.
  { done. }
  apply Forall_cons in IH as [IHvalue IH]. cbn [fold_left snd] in *.
  assert (wf_json value = true) as Hvalue by by apply (Hvalues key); left.
  apply IHitems; [done|by intros k v ?; apply (Hvalues k); right|].
  unfold merge_item. destruct (negb (dict_has dict1 key)).
  { by apply wf_json_dict_set. }
  destruct (dict_get dict1 key) as [[| | | | | |sub]|] eqn:Hget; try done.
  destruct value as [| | | | | |sub2] eqn:Hv; try done. rewrite <-Hv in *.
  apply wf_json_dict_set; [done|]. apply IHvalue; [done|].
  by apply (wf_json_get dict1 key).
Qed.

(** The merge of two parsed documents is again a document in which every
    mapping holds each key once, at every depth. *)
Theorem merge_documents_wf (main_data head_data : json) :
  wf_json main_data = true ->
  wf_json head_data = true ->
  wf_json (merge_documents main_data head_data) = true.
Proof.
  intros Hmain Hhead.
  destruct (is_dict main_data && is_dict head_data)%bool eqn:Hboth.
  - destruct main_data as [| | | | | |d1]; try done.
    destruct head_data as [| | | | | |d2]; try done.
    rewrite merge_documents_dict by by apply wf_json_NoDup.
    by apply merge_into_wf.
  - by rewrite merge_documents_not_dict.
Qed.

Lemma merge_documents_wf_witness :
  wf_json (merge_documents (JDict scenario1_current) (JDict scenario1_incoming)) = true.
Proof.
  apply (merge_documents_wf (JDict scenario1_current) (JDict scenario1_incoming));
    reflexivity.
Defined.

(** A merge that finds, for every incoming item, a current value that the
    item would leave as it is, changes nothing. *)
Lemma _merge_dict_recursive_fixed (dict1 dict2 : dict) :
  (forall k v2, In (k, v2) dict2 ->
                exists v1, dict_get dict1 k = Some v1 /\ merged_value v1 v2 = v1) ->
  _merge_dict_recursive dict1 dict2 = dict1.
Proof.
  rewrite _merge_dict_recursive_unfold.
  induction dict2 as [|[key value] dict2 IH]; intros Hfixed; [done|].
  cbn [fold_left].
  assert (merge_item merge_into dict1 dict1 key value = dict1) as ->.
  { destruct (Hfixed key value) as (v1 & Hget & Hsame); [by left|].
    unfold merge_item, dict_has. rewrite Hget. cbn [negb].
    destruct v1 as [| | | | | |sub1]; try done.
    destruct value as [| | | | | |sub2]; try done.
    cbn [merged_value] in Hsame. injection Hsame as Hsame.
    unfold _merge_dict_recursive in Hsame. rewrite Hsame.
    by apply dict_set_same. }
  apply IH. intros k v2 Hin. apply Hfixed. by right.
Qed.

Lemma merged_value_idempotent (v : json) :
  wf_json v = true -> merged_value v v = v.
Proof.
  induction v as [| | | | |elems _|items IH] using json_ind; try done.
  intros [Hnd Hvalues]%wf_json_dict_iff. cbn [merged_value]. f_equal.
  apply _merge_dict_recursive_fixed. intros k v Hin.
  exists v. split; [by apply dict_get_In_NoDup|].
  rewrite Forall_forall in IH.
  apply (IH (k, v)); [by apply list_elem_of_In|by eauto].
Qed.

Lemma merged_value_merge_documents (v1 v2 : json) :
  wf_json v2 = true -> merged_value v1 v2 = merge_documents v1 v2.
Proof.
  intros Hwf. destruct v1 as [| | | | | |d1], v2 as [| | | | | |d2]; try done.
  cbn [merged_value]. symmetry. by apply merge_documents_dict, wf_json_NoDup.
Qed.

(** Merging a parsed document with itself gives the document back. *)
Theorem merge_documents_idempotent (data : json) :
  wf_json data = true -> merge_documents data data = data.
Proof.
  intros Hwf. rewrite <-merged_value_merge_documents by done.
  by apply merged_value_idempotent.
Qed.

Lemma merge_documents_idempotent_witness :
  merge_documents (JDict scenario1_incoming) (JDict scenario1_incoming)
  = JDict scenario1_incoming.
Proof. apply (merge_documents_idempotent (JDict scenario1_incoming)). reflexivity. Defined.

Lemma merged_value_absorbs (v2 : json) :
  wf_json v2 = true ->
  forall v1, merged_value (merged_value v1 v2) v2 = merged_value v1 v2.
Proof.
  induction v2 as [| | | | |elems _|items IH] using json_ind;
    try by intros _ [].
  intros Hwf v1. pose proof Hwf as [Hnd Hvalues]%wf_json_dict_iff.
  destruct v1 as [| | | | | |d1]; try done.
  cbn [merged_value]. f_equal.
  apply _merge_dict_recursive_fixed. intros k w2 Hin.
  rewrite _merge_dict_recursive_get, (dict_get_In_NoDup items k w2) by done.
  rewrite Forall_forall in IH.
  destruct (dict_get d1 k) as [w1|]; eexists; (split; [done|]).
  - apply (IH (k, w2)); [by apply list_elem_of_In|by eauto].
  - apply merged_value_idempotent. by eauto.
Qed.

(** Merging the result once more with the same incoming document changes
    nothing: a second run of the merge is a no-op. *)
Theorem merge_documents_absorbs (main_data head_data : json) :
  wf_json head_data = true ->
  merge_documents (merge_documents main_data head_data) head_data
  = merge_documents main_data head_data.
Proof.
  intros Hwf. rewrite <-!merged_value_merge_documents by done.
  by apply merged_value_absorbs.
Qed.

Lemma merge_documents_absorbs_witness :
  merge_documents
    (merge_documents (JDict scenario2_current) (JDict scenario2_incoming))
    (JDict scenario2_incoming)
  = merge_documents (JDict scenario2_current) (JDict scenario2_incoming).
Proof.
  apply (merge_documents_absorbs (JDict scenario2_current) (JDict scenario2_incoming)).
  reflexivity.
Defined.

(** No value of the current document that is not a mapping is ever changed
    or removed, at any depth: where the current document has such a value,
    the merged document has the same value. *)
Theorem merge_keeps_current_values (path : list string) (main_data head_data v : json) :
  wf_json head_data = true ->
  json_at main_data path = Some v ->
  is_dict v = false ->
  json_at (merge_documents main_data head_data) path = Some v.
Proof.
  revert main_data head_data. induction path as [|k path IH];
    intros main_data head_data Hwf Hat Hleaf.
  - injection Hat as ->. rewrite merge_documents_not_dict; [done|].
    by rewrite Hleaf.
  - cbn [json_at] in Hat. destruct main_data as [| | | | | |d1]; try done.
    destruct (dict_get d1 k) as [sub|] eqn:Hget; [|done].
    destruct head_data as [| | | | | |d2];
      try (rewrite merge_documents_not_dict by done; cbn [json_at]; by rewrite Hget).
    rewrite merge_documents_dict by by apply wf_json_NoDup.
    cbn [json_at].
    rewrite _merge_dict_recursive_get, Hget by by apply wf_json_NoDup.
    destruct (dict_get d2 k) as [sub2|] eqn:Hget2; [|done].
    assert (wf_json sub2 = true) as Hwf2 by by apply (wf_json_get d2 k).
    rewrite merged_value_merge_documents by done. by apply IH.
Qed.

Lemma merge_keeps_current_values_witness :
  json_at (merge_documents (JDict scenario2_current) (JDict scenario2_incoming))
    ["version"] = Some (JStr "1.0.1").
Proof.
  apply (merge_keeps_current_values ["version"] (JDict scenario2_current)
           (JDict scenario2_incoming) (JStr "1.0.1")); reflexivity.
Defined.

(** ** The merge on any store *)

















(** ** The paths that [detect_conflicts] returns *)

Lemma chars_append (s t : string) : chars (s +:+ t) = chars s ++ chars t.
Proof. induction s as [|c s IH]; [done|]. rewrite append_cons. simpl. by rewrite IH. Qed.
















(** The steps of a run, as rewriting tactics. *)
Ltac from_state st := rewrite <-(advance_id st) at 1.
Ltac step_print :=
  rewrite ?bind_assoc; rewrite (bind_run _ _ _ _ _ (print_run _ _ _ _ _)).
Ltac step_git Hrun :=
  rewrite ?bind_assoc;
  rewrite (bind_run _ _ _ _ _ (subprocess_run_run _ _ _ _ _ _ _ _ Hrun)).
Ltac step_write Hw :=
  rewrite ?bind_assoc;
  rewrite (bind_run _ _ _ _ _ (open_write_run _ _ _ _ _ _ _ Hw)).

Section resolver_properties_proofs.
Context `{Host}.





End resolver_properties_proofs.


(** ** What the methods raise and which events they cause *)

Section resolver_effects.
Context `{Host}.

Lemma no_exit_ret {A} (a : A) : no_exit (ret a).
Proof. by intros st e st'. Qed.

Lemma no_exit_bind {A B} (m : M A) (k : A -> M B) :
  no_exit m -> (forall a, no_exit (k a)) -> no_exit (bind m k).
Proof.
  intros Hm Hk st e st'. unfold bind.
  destruct (m st) as [[e1|a] st1] eqn:Hrun.
  - intros [= <- <-]. by eapply Hm.
  - apply Hk.
Qed.

Lemma no_exit_print (line : string) : no_exit (print line).
Proof. by intros st e st'. Qed.

Lemma no_exit_set_conflicts (conflicts : list string) : no_exit (set_conflicts conflicts).
Proof. by intros st e st'. Qed.

Lemma no_exit_subprocess_run (cmd : list string) (cwd : option string) :
  no_exit (subprocess_run cmd cwd).
Proof. intros st e st'. unfold subprocess_run. by destruct (run_git _ _ _). Qed.

Lemma no_exit_open_write (path content : string) : no_exit (open_write path content).
Proof.
  intros st e st'. unfold open_write.
  destruct (write_file _ _ _) as [[msg|] w]; [|done]. by intros [= <- _].
Qed.

Lemma no_exit_raise {A} (e : exn) : is_Exception e = true -> no_exit (@raise _ A e).
Proof. by intros He st e' st' [= <- _]. Qed.

Lemma no_exit_loads (text : string) : no_exit (loads text).
Proof. unfold loads. destruct (json_loads text); [by apply no_exit_raise|apply no_exit_ret]. Qed.

Lemma no_exit_try_except {A} (body : M A) (handler : exn -> M A) :
  no_exit body -> (forall e, no_exit (handler e)) -> no_exit (try_except body handler).
Proof.
  intros Hbody Hhandler st e st'. unfold try_except.
  destruct (body st) as [[e1|a] st1] eqn:Hrun; [|done].
  rewrite (Hbody _ _ _ Hrun). apply Hhandler.
Qed.

Lemma emits_ret (P : event -> Prop) {A} (a : A) : emits P (ret a).
Proof. intros st r st' [= _ <-]. exists []. by rewrite app_nil_r. Qed.

Lemma emits_bind (P : event -> Prop) {A B} (m : M A) (k : A -> M B) :
  emits P m -> (forall a, emits P (k a)) -> emits P (bind m k).
Proof.
  intros Hm Hk st r st'. unfold bind.
  destruct (m st) as [[e1|a] st1] eqn:Hrun.
  - intros [= <- <-]. by eapply Hm.
  - intros Hrest. destruct (Hm _ _ _ Hrun) as (ev1 & E1 & H1).
    destruct (Hk a _ _ _ Hrest) as (ev2 & E2 & H2).
    exists (ev1 ++ ev2). split; [by rewrite E2, E1, app_assoc|by apply Forall_app].
Qed.

Lemma emits_print (P : event -> Prop) (line : string) : emits P (print line).
Proof. intros st r st' [= _ <-]. exists []. by rewrite app_nil_r. Qed.

Lemma emits_set_conflicts (P : event -> Prop) (conflicts : list string) :
  emits P (set_conflicts conflicts).
Proof. intros st r st' [= _ <-]. exists []. by rewrite app_nil_r. Qed.

Lemma emits_raise (P : event -> Prop) {A} (e : exn) : emits P (@raise _ A e).
Proof. intros st r st' [= _ <-]. exists []. by rewrite app_nil_r. Qed.

Lemma emits_loads (P : event -> Prop) (text : string) : emits P (loads text).
Proof. unfold loads. destruct (json_loads text); [apply emits_raise|apply emits_ret]. Qed.

Lemma emits_subprocess_run (P : event -> Prop) (cmd : list string) (cwd : option string) :
  P (Git cmd cwd) -> emits P (subprocess_run cmd cwd).
Proof.
  intros HP st r st'. unfold subprocess_run.
  destruct (run_git _ _ _) as [result w]. intros [= _ <-].
  exists [Git cmd cwd]. split; [done|by constructor].
Qed.

Lemma emits_open_write (P : event -> Prop) (path content : string) :
  P (WriteFile path content) -> emits P (open_write path content).
Proof.
  intros HP st r st'. unfold open_write.
  destruct (write_file _ _ _) as [err w]. intros [= _ <-].
  exists [WriteFile path content]. split; [done|by constructor].
Qed.

Lemma emits_try_except (P : event -> Prop) {A} (body : M A) (handler : exn -> M A) :
  emits P body -> (forall e, emits P (handler e)) -> emits P (try_except body handler).
Proof.
  intros Hbody Hhandler st r st'. unfold try_except.
  destruct (body st) as [[e1|a] st1] eqn:Hrun.
  - destruct (is_Exception e1).
    + intros Hrest. destruct (Hbody _ _ _ Hrun) as (ev1 & E1 & H1).
      destruct (Hhandler e1 _ _ _ Hrest) as (ev2 & E2 & H2).
      exists (ev1 ++ ev2). split; [by rewrite E2, E1, app_assoc|by apply Forall_app].
    + intros [= <- <-]. by eapply Hbody.
  - intros [= <- <-]. by eapply Hbody.
Qed.

Lemma emits_weaken (P Q : event -> Prop) {A} (m : M A) :
  (forall e, P e -> Q e) -> emits P m -> emits Q m.
Proof.
  intros HPQ Hm st r st' Hrun. destruct (Hm _ _ _ Hrun) as (events & E & Hall).
  exists events. split; [done|]. by eapply Forall_impl.
Qed.

(** The two properties are proved method by method with the same steps. *)
Ltac effects :=
  repeat lazymatch goal with
    | |- no_exit (ret _) => apply no_exit_ret
    | |- no_exit (print _) => apply no_exit_print
    | |- no_exit (set_conflicts _) => apply no_exit_set_conflicts
    | |- no_exit (subprocess_run _ _) => apply no_exit_subprocess_run
    | |- no_exit (open_write _ _) => apply no_exit_open_write
    | |- no_exit (loads _) => apply no_exit_loads
    | |- no_exit (raise _) => apply no_exit_raise; reflexivity
    | |- no_exit (try_except _ _) => apply no_exit_try_except; [|intros ?]
    | |- no_exit (bind _ _) => apply no_exit_bind; [|intros ?]
    | |- emits _ (ret _) => apply emits_ret
    | |- emits _ (print _) => apply emits_print
    | |- emits _ (set_conflicts _) => apply emits_set_conflicts
    | |- emits _ (raise _) => apply emits_raise
    | |- emits _ (loads _) => apply emits_loads
    | |- emits _ (subprocess_run _ _) =>
        apply emits_subprocess_run; unfold touches; tauto
    | |- emits _ (open_write _ _) =>
        apply emits_open_write; unfold touches; eauto 6
    | |- emits _ (try_except _ _) => apply emits_try_except; [|intros ?]
    | |- emits _ (bind _ _) => apply emits_bind; [|intros ?]
    | |- no_exit (if ?b then _ else _) => destruct b
    | |- emits _ (if ?b then _ else _) => destruct b
    | |- no_exit (match ?x with _ => _ end) => destruct x
    | |- emits _ (match ?x with _ => _ end) => destruct x
    | |- no_exit (let _ := _ in _) => cbv zeta
    | |- emits _ (let _ := _ in _) => cbv zeta
    end.


Lemma no_exit_detect_conflicts (repo_root : string) : no_exit (detect_conflicts repo_root).
Proof. unfold detect_conflicts, _run_git_command. effects. Qed.

Lemma no_exit_resolve_readme_conflict (repo_root filepath : string) :
  no_exit (resolve_readme_conflict repo_root filepath).
Proof. unfold resolve_readme_conflict, _run_git_command. effects. Qed.

Lemma no_exit_resolve_json_conflict (repo_root filepath : string) :
  no_exit (resolve_json_conflict repo_root filepath).
Proof. unfold resolve_json_conflict, _run_git_command. effects. Qed.

Lemma no_exit_resolve_default_conflict (repo_root filepath : string) :
  no_exit (resolve_default_conflict repo_root filepath).
Proof. unfold resolve_default_conflict, _run_git_command. effects. Qed.

Lemma no_exit_resolve_file (repo_root filepath : string) :
  no_exit (resolve_file repo_root filepath).
Proof.
  unfold resolve_file. apply no_exit_bind.
  - destruct (endswith _ _); [apply no_exit_resolve_readme_conflict|].
    destruct (_ || _)%bool; [apply no_exit_resolve_json_conflict|apply no_exit_ret].
  - intros resolved. destruct (negb resolved);
      [apply no_exit_resolve_default_conflict|apply no_exit_ret].
Qed.

Lemma no_exit_resolve_loop (repo_root : string) (conflicts : list string) (count : nat) :
  no_exit (resolve_loop repo_root conflicts count).
Proof.
  revert count. induction conflicts as [|filepath rest IH]; intros count;
    cbn [resolve_loop]; [apply no_exit_ret|].
  apply no_exit_bind; [apply no_exit_resolve_file|]. intros resolved.
  apply no_exit_bind; [effects|]. intros n. apply IH.
Qed.

Lemma no_exit_print_each (render : string -> string) (lines : list string) :
  no_exit (print_each render lines).
Proof. induction lines as [|line rest IH]; cbn [print_each]; effects. apply IH. Qed.

Lemma no_exit_resolve_all_conflicts (repo_root : string) :
  no_exit (resolve_all_conflicts repo_root).
Proof.
  unfold resolve_all_conflicts.
  apply no_exit_bind; [apply no_exit_detect_conflicts|]. intros [|p conflicts]; [effects|].
  apply no_exit_bind; [effects|]. intros _.
  apply no_exit_bind; [apply no_exit_print_each|]. intros _.
  apply no_exit_bind; [apply no_exit_resolve_loop|]. intros count. effects.
Qed.


Lemma emits_resolve_readme_conflict (repo_root filepath : string) :
  emits (touches repo_root filepath) (resolve_readme_conflict repo_root filepath).
Proof. unfold resolve_readme_conflict, _run_git_command. effects. Qed.

Lemma emits_resolve_json_conflict (repo_root filepath : string) :
  emits (touches repo_root filepath) (resolve_json_conflict repo_root filepath).
Proof. unfold resolve_json_conflict, _run_git_command. effects. Qed.

Lemma emits_resolve_default_conflict (repo_root filepath : string) :
  emits (touches repo_root filepath) (resolve_default_conflict repo_root filepath).
Proof. unfold resolve_default_conflict, _run_git_command. effects. Qed.

Lemma emits_resolve_file (repo_root filepath : string) :
  emits (touches repo_root filepath) (resolve_file repo_root filepath).
Proof.
  unfold resolve_file. apply emits_bind.
  - destruct (endswith _ _); [apply emits_resolve_readme_conflict|].
    destruct (_ || _)%bool; [apply emits_resolve_json_conflict|apply emits_ret].
  - intros resolved. destruct (negb resolved);
      [apply emits_resolve_default_conflict|apply emits_ret].
Qed.

Lemma emits_resolve_loop (repo_root : string) (conflicts : list string) (count : nat) :
  emits (fun e => exists p, In p conflicts /\ touches repo_root p e)
    (resolve_loop repo_root conflicts count).
Proof.
  revert count. induction conflicts as [|filepath rest IH]; intros count;
    cbn [resolve_loop]; [apply emits_ret|].
  apply emits_bind.
  { eapply emits_weaken; [|apply emits_resolve_file].
    intros e He. exists filepath. split; [by left|done]. }
  intros resolved. apply emits_bind; [effects|]. intros n.
  eapply emits_weaken; [|apply IH].
  intros e (p & Hp & He). exists p. split; [by right|done].
Qed.

Lemma emits_print_each (P : event -> Prop) (render : string -> string)
    (lines : list string) :
  emits P (print_each render lines).
Proof. induction lines as [|line rest IH]; cbn [print_each]; effects. apply IH. Qed.

(** ** How a run ends *)





(** An exception raised while the conflicts are resolved (an [OSError]
    from writing a file) ends the run: [main] prints the error and exits
    with status 1, and no commit is attempted. *)
Theorem main_reports_exception (st st1 st2 : state) (resolver : string) (e : exn) :
  ConflictResolver
    (advance st (st_world st)
       ["WebQx Automated Conflict Resolution";
        "==================================="] [])
  = (inr resolver, st1) ->
  resolve_all_conflicts resolver st1 = (inl e, st2) ->
  main st
  = (inl (SystemExit 1),
     advance st2 (st_world st2)
       [String newline "✗ Error during conflict resolution: " +:+ str_exn e] []).
Proof.
  intros Hinit Hresolve.
  pose proof (no_exit_resolve_all_conflicts resolver _ _ _ Hresolve) as He.
  unfold main. from_state st. step_print. step_print.
  match goal with
  | |- try_except ?body _ ?s = _ => assert (body s = (inl e, st2)) as Hbody
  end.
  { by rewrite (bind_run _ _ _ _ _ Hinit), (bind_raise _ _ _ _ _ Hresolve). }
  rewrite (try_except_handles _ _ _ _ _ Hbody He).
  rewrite <-(advance_id st2) at 1. by step_print.
Qed.

(** When some conflict stays unresolved, [main] exits with status 1 and
    does not call [commit_resolution]: what was resolved stays written and
    staged, nothing is committed. *)
Theorem main_partial_failure (st st1 st2 : state) (resolver : string) :
  ConflictResolver
    (advance st (st_world st)
       ["WebQx Automated Conflict Resolution";
        "==================================="] [])
  = (inr resolver, st1) ->
  resolve_all_conflicts resolver st1 = (inr false, st2) ->
  main st
  = (inl (SystemExit 1),
     advance st2 (st_world st2)
       [String newline "✗ Some conflicts could not be resolved automatically."] []).
Proof.
  intros Hinit Hresolve.
  unfold main. from_state st. step_print. step_print.
  match goal with
  | |- try_except ?body _ ?s = _ =>
      assert (body s
              = (inl (SystemExit 1),
                 advance st2 (st_world st2)
                   [String newline
                      "✗ Some conflicts could not be resolved automatically."] []))
        as Hbody
  end.
  { rewrite (bind_run _ _ _ _ _ Hinit), (bind_run _ _ _ _ _ Hresolve).
    cbv beta iota. rewrite <-(advance_id st2) at 1. by step_print. }
  by rewrite (try_except_passes _ _ _ _ _ Hbody eq_refl).
Qed.

(** ** What a resolved file means *)


(** When the working file of a documentation conflict cannot be written,
    the [OSError] leaves [resolve_file]: there is no fall-back to the
    default strategy, and the file is not staged. *)
Theorem resolve_file_readme_write_error (repo_root filepath msg : string) (st : state)
    (shown : CompletedProcess) (w1 w2 : world) :
  is_readme filepath = true ->
  run_git ["git"; "show"; "MERGE_HEAD:" +:+ filepath] (Some repo_root) (st_world st)
  = (shown, w1) ->
  returncode shown = 0 ->
  write_file (path_join repo_root filepath) (stdout shown) w1 = (Some msg, w2) ->
  resolve_file repo_root filepath st
  = (inl (OSError msg),
     advance st w2
       ["Resolving README.md conflict: " +:+ filepath]
       [Git ["git"; "show"; "MERGE_HEAD:" +:+ filepath] (Some repo_root);
        WriteFile (path_join repo_root filepath) (stdout shown)]).
Proof.
  intros Hdoc Hshow Hcode Hwrite.
  unfold resolve_file, resolve_readme_conflict, _run_git_command.
  unfold is_readme in Hdoc. rewrite Hdoc. cbn [negb].
  from_state st. step_print. step_git Hshow. rewrite Hcode. cbn [Z.eqb].
  rewrite ?bind_assoc.
  by rewrite (bind_raise _ _ _ _ _ (open_write_raise _ _ _ _ _ _ _ _ Hwrite)).
Qed.

(** A structured file that is JSON at both revisions is resolved with the
    serialised merge of the two documents and a final line break, and
    staged. *)
Theorem resolve_file_writes_merge (repo_root filepath : string) (st : state)
    (cur inc added : CompletedProcess) (w1 w2 w3 w4 : world)
    (main_data head_data : json) :
  is_readme filepath = false ->
  is_json_or_config filepath = true ->
  run_git ["git"; "show"; "HEAD:" +:+ filepath] (Some repo_root) (st_world st)
  = (cur, w1) ->
  run_git ["git"; "show"; "MERGE_HEAD:" +:+ filepath] (Some repo_root) w1
  = (inc, w2) ->
  returncode cur = 0 ->
  returncode inc = 0 ->
  json_loads (stdout cur) = inr main_data ->
  json_loads (stdout inc) = inr head_data ->
  write_file (path_join repo_root filepath)
    (json_dumps (merge_documents main_data head_data) +:+ String newline EmptyString)
    w2 = (None, w3) ->
  run_git ["git"; "add"; filepath] (Some repo_root) w3 = (added, w4) ->
  resolve_file repo_root filepath st
  = (inr true,
     advance st w4
       ["Resolving JSON/config conflict: " +:+ filepath;
        "✓ Intelligently merged JSON/config file: " +:+ filepath]
       [Git ["git"; "show"; "HEAD:" +:+ filepath] (Some repo_root);
        Git ["git"; "show"; "MERGE_HEAD:" +:+ filepath] (Some repo_root);
        WriteFile (path_join repo_root filepath)
          (json_dumps (merge_documents main_data head_data)
           +:+ String newline EmptyString);
        Git ["git"; "add"; filepath] (Some repo_root)]).
Proof.
  intros Hdoc Hjson Hcur Hinc Hc1 Hc2 Hmain Hhead Hwrite Hadd.
  unfold resolve_file, resolve_json_conflict, _run_git_command.
  unfold is_readme in Hdoc. unfold is_json_or_config in Hjson.
  rewrite Hdoc, Hjson. cbn [negb].
  match goal with
  | |- bind (bind _ (fun _ => try_except ?body ?handler)) _ _ = _ =>
      assert (body (advance st (st_world st)
                      ["Resolving JSON/config conflict: " +:+ filepath] [])
              = (inr true,
                 advance st w4
                   ["Resolving JSON/config conflict: " +:+ filepath;
                    "✓ Intelligently merged JSON/config file: " +:+ filepath]
                   [Git ["git"; "show"; "HEAD:" +:+ filepath] (Some repo_root);
                    Git ["git"; "show"; "MERGE_HEAD:" +:+ filepath] (Some repo_root);
                    WriteFile (path_join repo_root filepath)
                      (json_dumps (merge_documents main_data head_data)
                       +:+ String newline EmptyString);
                    Git ["git"; "add"; filepath] (Some repo_root)])) as Hbody
  end.
  { step_git Hcur. step_git Hinc. rewrite Hc1, Hc2. cbn [Z.eqb negb orb].
    unfold loads. rewrite Hmain, Hhead.
    rewrite (bind_run _ _ _ _ _ (eq_refl : ret main_data _ = _)).
    rewrite (bind_run _ _ _ _ _ (eq_refl : ret head_data _ = _)).
    cbv zeta. step_write Hwrite. step_git Hadd. by step_print. }
  from_state st. step_print.
  by rewrite (bind_run _ _ _ _ _ (try_except_returns _ _ _ _ _ Hbody)).
Qed.

(** When the merged document cannot be written, [resolve_json_conflict]
    catches the error and reports it, and the loop body goes on with the
    default strategy for the same path. *)
Theorem resolve_file_json_write_error (repo_root filepath msg : string) (st : state)
    (cur inc : CompletedProcess) (w1 w2 w3 : world) (main_data head_data : json) :
  is_readme filepath = false ->
  is_json_or_config filepath = true ->
  run_git ["git"; "show"; "HEAD:" +:+ filepath] (Some repo_root) (st_world st)
  = (cur, w1) ->
  run_git ["git"; "show"; "MERGE_HEAD:" +:+ filepath] (Some repo_root) w1
  = (inc, w2) ->
  returncode cur = 0 ->
  returncode inc = 0 ->
  json_loads (stdout cur) = inr main_data ->
  json_loads (stdout inc) = inr head_data ->
  write_file (path_join repo_root filepath)
    (json_dumps (merge_documents main_data head_data) +:+ String newline EmptyString)
    w2 = (Some msg, w3) ->
  resolve_file repo_root filepath st
  = resolve_default_conflict repo_root filepath
      (advance st w3
         ["Resolving JSON/config conflict: " +:+ filepath;
          "✗ Failed to merge JSON file " +:+ filepath +:+ ": " +:+ msg]
         [Git ["git"; "show"; "HEAD:" +:+ filepath] (Some repo_root);
          Git ["git"; "show"; "MERGE_HEAD:" +:+ filepath] (Some repo_root);
          WriteFile (path_join repo_root filepath)
            (json_dumps (merge_documents main_data head_data)
             +:+ String newline EmptyString)]).
Proof.
  intros Hdoc Hjson Hcur Hinc Hc1 Hc2 Hmain Hhead Hwrite.
  unfold resolve_file, resolve_json_conflict, _run_git_command.
  unfold is_readme in Hdoc. unfold is_json_or_config in Hjson.
  rewrite Hdoc, Hjson. cbn [negb].
  match goal with
  | |- bind (bind _ (fun _ => try_except ?body ?handler)) _ _ = _ =>
      assert (body (advance st (st_world st)
                      ["Resolving JSON/config conflict: " +:+ filepath] [])
              = (inl (OSError msg),
                 advance st w3
                   ["Resolving JSON/config conflict: " +:+ filepath]
                   [Git ["git"; "show"; "HEAD:" +:+ filepath] (Some repo_root);
                    Git ["git"; "show"; "MERGE_HEAD:" +:+ filepath] (Some repo_root);
                    WriteFile (path_join repo_root filepath)
                      (json_dumps (merge_documents main_data head_data)
                       +:+ String newline EmptyString)])) as Hbody
  end.
  { step_git Hcur. step_git Hinc. rewrite Hc1, Hc2. cbn [Z.eqb negb orb].
    unfold loads. rewrite Hmain, Hhead.
    rewrite (bind_run _ _ _ _ _ (eq_refl : ret main_data _ = _)).
    rewrite (bind_run _ _ _ _ _ (eq_refl : ret head_data _ = _)).
    cbv zeta.
    by rewrite (bind_raise _ _ _ _ _ (open_write_raise _ _ _ _ _ _ _ _ Hwrite)). }
  from_state st. step_print.
  match goal with
  | |- bind (try_except ?body ?handler) _ ?s = _ =>
      assert (try_except body handler s
              = (inr false,
                 advance st w3
                   ["Resolving JSON/config conflict: " +:+ filepath;
                    "✗ Failed to merge JSON file " +:+ filepath +:+ ": " +:+ msg]
                   [Git ["git"; "show"; "HEAD:" +:+ filepath] (Some repo_root);
                    Git ["git"; "show"; "MERGE_HEAD:" +:+ filepath] (Some repo_root);
                    WriteFile (path_join repo_root filepath)
                      (json_dumps (merge_documents main_data head_data)
                       +:+ String newline EmptyString)])) as Htry
  end.
  { rewrite (try_except_handles _ _ _ _ _ Hbody eq_refl). by step_print. }
  by rewrite (bind_run _ _ _ _ _ Htry).
Qed.

(** Case analysis of a run: every answer of git, of the file system and of
    the parser, and every test. *)
Ltac run_cases Hrun :=
  repeat (cbn [st_world st_printed st_trace st_conflicts] in Hrun;
          match type of Hrun with
          | context [run_git ?c ?d ?w] => destruct (run_git c d w) as [? ?]
          | context [write_file ?p ?c ?w] => destruct (write_file p c w) as [[?|] ?]
          | context [json_loads ?t] => destruct (json_loads t)
          | context [if ?b then _ else _] => destruct b
          end).

Lemma resolve_default_conflict_stages (repo_root filepath : string) (st st' : state) :
  resolve_default_conflict repo_root filepath st = (inr true, st') ->
  exists before content,
    st_trace st'
    = st_trace st ++ before
      ++ [WriteFile (path_join repo_root filepath) content;
          Git ["git"; "add"; filepath] (Some repo_root)].
Proof.
  intros Hrun.
  unfold resolve_default_conflict, _run_git_command, bind, print, subprocess_run,
    open_write, ret in Hrun.
  run_cases Hrun; simplify_eq; cbn [st_trace].
  eexists [_], _. by rewrite <-!app_assoc.
Qed.

Lemma resolve_readme_conflict_stages (repo_root filepath : string) (st st' : state) :
  resolve_readme_conflict repo_root filepath st = (inr true, st') ->
  exists before content,
    st_trace st'
    = st_trace st ++ before
      ++ [WriteFile (path_join repo_root filepath) content;
          Git ["git"; "add"; filepath] (Some repo_root)].
Proof.
  intros Hrun.
  unfold resolve_readme_conflict, _run_git_command, bind, print, subprocess_run,
    open_write, ret in Hrun.
  run_cases Hrun; simplify_eq; cbn [st_trace].
  eexists [_], _. by rewrite <-!app_assoc.
Qed.

Lemma resolve_json_conflict_stages (repo_root filepath : string) (st st' : state) :
  resolve_json_conflict repo_root filepath st = (inr true, st') ->
  exists before content,
    st_trace st'
    = st_trace st ++ before
      ++ [WriteFile (path_join repo_root filepath) content;
          Git ["git"; "add"; filepath] (Some repo_root)].
Proof.
  intros Hrun.
  unfold resolve_json_conflict, _run_git_command, try_except, loads, bind, raise,
    print, subprocess_run, open_write, ret in Hrun.
  run_cases Hrun; simplify_eq; cbn [st_trace].
  eexists [_; _], _. by rewrite <-!app_assoc.
Qed.

(** A file that [resolve_file] reports as resolved has been written in the
    working tree under the repository root and then staged: these are the
    last two things that happened. *)
Theorem resolve_file_stages_what_it_writes (repo_root filepath : string)
    (st st' : state) :
  resolve_file repo_root filepath st = (inr true, st') ->
  exists before content,
    st_trace st'
    = st_trace st ++ before
      ++ [WriteFile (path_join repo_root filepath) content;
          Git ["git"; "add"; filepath] (Some repo_root)].
Proof.
  rewrite resolve_file_strategy. unfold bind.
  destruct (strategy_for repo_root filepath st) as [[e|resolved] st1] eqn:Hstrategy;
    [done|].
  destruct resolved; cbn [negb].
  - intros [= <-]. unfold strategy_for in Hstrategy.
    destruct (classify filepath).
    + by apply resolve_readme_conflict_stages.
    + by apply resolve_json_conflict_stages.
    + done.
  - intros Hdefault.
    assert (exists events, st_trace st1 = st_trace st ++ events) as [events Hst1].
    { unfold strategy_for in Hstrategy. destruct (classify filepath).
      - destruct (emits_resolve_readme_conflict _ _ _ _ _ Hstrategy) as (evs & ? & _).
        by eauto.
      - destruct (emits_resolve_json_conflict _ _ _ _ _ Hstrategy) as (evs & ? & _).
        by eauto.
      - injection Hstrategy as <-. exists []. by rewrite app_nil_r. }
    destruct (resolve_default_conflict_stages _ _ _ _ Hdefault)
      as (before & content & Hst').
    exists (events ++ before), content. by rewrite Hst', Hst1, <-!app_assoc.
Qed.

(** [resolve_all_conflicts] reads, writes and stages only the paths that
    were listed as conflicted, always from the repository root: it touches
    no other file and never commits. *)
Theorem resolve_all_conflicts_touches_conflicts (repo_root : string)
    (st st1 st' : state) (conflicts : list string) (r : exn + bool) :
  detect_conflicts repo_root st = (inr conflicts, st1) ->
  resolve_all_conflicts repo_root st = (r, st') ->
  exists events,
    st_trace st' = st_trace st1 ++ events
    /\ Forall (fun e => exists p, In p conflicts /\ touches repo_root p e) events.
Proof.
  intros Hdetect. unfold resolve_all_conflicts. rewrite (bind_run _ _ _ _ _ Hdetect).
  revert st'. generalize st1 r.
  change (emits (fun e => exists p, In p conflicts /\ touches repo_root p e)
            (match conflicts with
             | [] => bind (print "No merge conflicts detected.") (fun _ => ret true)
             | _ :: _ =>
                 bind (print ("Found " +:+ str_of_nat (length conflicts)
                              +:+ " conflict(s) to resolve:"))
                   (fun _ =>
                      bind (print_each (fun conflict => "  - " +:+ conflict) conflicts)
                        (fun _ =>
                           bind (resolve_loop repo_root conflicts 0)
                             (fun resolved_count =>
                                bind (print (String newline "Resolved "
                                             +:+ str_of_nat resolved_count +:+ "/"
                                             +:+ str_of_nat (length conflicts)
                                             +:+ " conflicts."))
                                  (fun _ => ret (Nat.eqb resolved_count
                                                   (length conflicts))))))
             end)).
  destruct conflicts as [|p conflicts]; [effects|].
  apply emits_bind; [effects|]. intros _.
  apply emits_bind; [apply emits_print_each|]. intros _.
  apply emits_bind; [apply emits_resolve_loop|]. intros count. effects.
Qed.

(** ** The result of the whole resolution and the commit *)

Lemma print_each_run (render : string -> string) (lines : list string) (st : state)
    (w : world) (printed : list string) (events : list event) :
  print_each render lines (advance st w printed events)
  = (inr tt, advance st w (printed ++ map render lines) events).
Proof.
  revert printed. induction lines as [|line lines IH]; intros printed; cbn [print_each map].
  - by rewrite app_nil_r.
  - step_print. rewrite IH. by rewrite <-app_assoc.
Qed.

Lemma bind_print_ret {A B} (line : string) (a : A) (k : A -> M B) (st : state) :
  bind (bind (print line) (fun _ => ret a)) k st = k a (snd (print line st)).
Proof. reflexivity. Qed.

(** The loop counts the resolved paths: the count never exceeds their
    number and reaches it exactly when every path was resolved. *)
Lemma resolve_loop_count (repo_root : string) (paths : list string) :
  forall (count : nat) (st : state) (total : nat) (st' : state),
    resolve_loop repo_root paths count st = (inr total, st') ->
    (count <= total <= count + length paths)%nat
    /\ (total = (count + length paths)%nat <-> all_resolved repo_root paths st).
Proof.
  induction paths as [|filepath rest IH]; intros count st total st';
    cbn [resolve_loop all_resolved length].
  - intros [= <- _]. split; [lia|]. split; [done|lia].
  - destruct (resolve_file repo_root filepath st) as [[e|resolved] st1] eqn:Hfile.
    { by rewrite (bind_raise _ _ _ _ _ Hfile). }
    rewrite (bind_run _ _ _ _ _ Hfile). destruct resolved.
    + rewrite (bind_run _ _ _ _ _ (eq_refl : ret (S count) st1 = _)).
      intros [Hbounds Hiff]%IH. split; [lia|].
      rewrite <-Hiff. split; [intros ->; split; [done|lia]|intros [_ ->]; lia].
    + rewrite bind_print_ret. intros [Hbounds _]%IH.
      split; [lia|]. split; [lia|by intros [? _]].
Qed.

(** [resolve_all_conflicts] returns [True] exactly when every listed path
    was resolved, by its own strategy or by the default one; when it returns
    at all, since a write error ends it with an exception. *)
Theorem resolve_all_conflicts_success_iff (repo_root : string) (st st1 st' : state)
    (conflicts : list string) (success : bool) :
  detect_conflicts repo_root st = (inr conflicts, st1) ->
  resolve_all_conflicts repo_root st = (inr success, st') ->
  success = true
  <-> all_resolved repo_root conflicts
        (advance st1 (st_world st1)
           (("Found " +:+ str_of_nat (length conflicts) +:+ " conflict(s) to resolve:")
            :: map (fun conflict => "  - " +:+ conflict) conflicts) []).
Proof.
  intros Hdetect. unfold resolve_all_conflicts. rewrite (bind_run _ _ _ _ _ Hdetect).
  destruct conflicts as [|p rest]; [by intros [= <- _]|].
  rewrite <-(advance_id st1) at 1. step_print. rewrite ?bind_assoc.
  rewrite (bind_run _ _ _ _ _ (print_each_run _ _ _ _ _ _)).
  match goal with
  | |- bind (resolve_loop ?root ?ps ?n) _ ?s = _ -> _ =>
      destruct (resolve_loop root ps n s) as [[e|total] st2] eqn:Hloop
  end.
  { by rewrite (bind_raise _ _ _ _ _ Hloop). }
  rewrite (bind_run _ _ _ _ _ Hloop). intros [= <- _].
  apply resolve_loop_count in Hloop as [_ Hiff].
  rewrite Nat.eqb_eq. exact Hiff.
Qed.


End resolver_effects.

(** ** The outcomes on the simulated repository *)

Lemma main_reports_exception_witness :
  exit_status
    (fst (@main sim_readonly_host (@initial_state sim_readonly_host sim_commit_refused)))
  = 1.
Proof.
  rewrite (@main_reports_exception sim_readonly_host
             (@initial_state sim_readonly_host sim_commit_refused)
             (snd (@ConflictResolver sim_readonly_host
                     (@advance sim_readonly_host
                        (@initial_state sim_readonly_host sim_commit_refused)
                        sim_commit_refused
                        ["WebQx Automated Conflict Resolution";
                         "==================================="] [])))
             (snd (@resolve_all_conflicts sim_readonly_host "/repo"
                     (snd (@ConflictResolver sim_readonly_host
                             (@advance sim_readonly_host
                                (@initial_state sim_readonly_host sim_commit_refused)
                                sim_commit_refused
                                ["WebQx Automated Conflict Resolution";
                                 "==================================="] [])))))
             "/repo" (OSError "Permission denied")).
  - reflexivity.
  - vm_compute. reflexivity.
  - vm_compute. reflexivity.
Defined.

Lemma main_partial_failure_witness :
  exit_status (fst (@main sim_host (@initial_state sim_host sim_unresolvable))) = 1.
Proof.
  rewrite (@main_partial_failure sim_host
             (@initial_state sim_host sim_unresolvable)
             (snd (@ConflictResolver sim_host
                     (@advance sim_host (@initial_state sim_host sim_unresolvable)
                        sim_unresolvable
                        ["WebQx Automated Conflict Resolution";
                         "==================================="] [])))
             (snd (@resolve_all_conflicts sim_host "/repo"
                     (snd (@ConflictResolver sim_host
                             (@advance sim_host (@initial_state sim_host sim_unresolvable)
                                sim_unresolvable
                                ["WebQx Automated Conflict Resolution";
                                 "==================================="] [])))))
             "/repo").
  - reflexivity.
  - vm_compute. reflexivity.
  - vm_compute. reflexivity.
Defined.


Lemma resolve_file_readme_write_error_witness :
  @resolve_file sim_readonly_host "/repo" "README.md"
    (@initial_state sim_readonly_host sim_commit_refused)
  = (inl (OSError "Permission denied"),
     @advance sim_readonly_host (@initial_state sim_readonly_host sim_commit_refused)
       sim_commit_refused
       ["Resolving README.md conflict: README.md"]
       [Git ["git"; "show"; "MERGE_HEAD:README.md"] (Some "/repo");
        WriteFile "/repo/README.md" "# incoming"]).
Proof.
  apply (@resolve_file_readme_write_error sim_readonly_host "/repo" "README.md"
           "Permission denied"
           (@initial_state sim_readonly_host sim_commit_refused)
           (completed 0 "# incoming" EmptyString) sim_commit_refused).
  - reflexivity.
  - reflexivity.
  - reflexivity.
  - reflexivity.
Defined.

Lemma resolve_file_writes_merge_witness :
  @resolve_file sim_host "/repo" "config.json" (@initial_state sim_host sim_json_conflict)
  = (inr true,
     @advance sim_host (@initial_state sim_host sim_json_conflict)
       (snd (sim_run_git ["git"; "add"; "config.json"] (Some "/repo")
               (snd (sim_write_file "/repo/config.json"
                       ("{}" +:+ String newline EmptyString) sim_json_conflict))))
       ["Resolving JSON/config conflict: config.json";
        "✓ Intelligently merged JSON/config file: config.json"]
       [Git ["git"; "show"; "HEAD:config.json"] (Some "/repo");
        Git ["git"; "show"; "MERGE_HEAD:config.json"] (Some "/repo");
        WriteFile "/repo/config.json" ("{}" +:+ String newline EmptyString);
        Git ["git"; "add"; "config.json"] (Some "/repo")]).
Proof.
  apply (@resolve_file_writes_merge sim_host "/repo" "config.json"
           (@initial_state sim_host sim_json_conflict)
           (completed 0 "{}" EmptyString) (completed 0 "{}" EmptyString)
           (completed 0 EmptyString EmptyString)
           sim_json_conflict sim_json_conflict
           (snd (sim_write_file "/repo/config.json"
                   ("{}" +:+ String newline EmptyString) sim_json_conflict))
           _ (JDict []) (JDict [])).
  - reflexivity.
  - reflexivity.
  - reflexivity.
  - reflexivity.
  - reflexivity.
  - reflexivity.
  - reflexivity.
  - reflexivity.
  - reflexivity.
  - reflexivity.
Defined.

Lemma resolve_file_json_write_error_witness :
  @resolve_file sim_readonly_host "/repo" "config.json"
    (@initial_state sim_readonly_host sim_json_conflict)
  = @resolve_default_conflict sim_readonly_host "/repo" "config.json"
      (@advance sim_readonly_host (@initial_state sim_readonly_host sim_json_conflict)
         sim_json_conflict
         ["Resolving JSON/config conflict: config.json";
          "✗ Failed to merge JSON file config.json: Permission denied"]
         [Git ["git"; "show"; "HEAD:config.json"] (Some "/repo");
          Git ["git"; "show"; "MERGE_HEAD:config.json"] (Some "/repo");
          WriteFile "/repo/config.json" ("{}" +:+ String newline EmptyString)]).
Proof.
  apply (@resolve_file_json_write_error sim_readonly_host "/repo" "config.json"
           "Permission denied"
           (@initial_state sim_readonly_host sim_json_conflict)
           (completed 0 "{}" EmptyString) (completed 0 "{}" EmptyString)
           sim_json_conflict sim_json_conflict sim_json_conflict
           (JDict []) (JDict [])).
  - reflexivity.
  - reflexivity.
  - reflexivity.
  - reflexivity.
  - reflexivity.
  - reflexivity.
  - reflexivity.
  - reflexivity.
  - reflexivity.
Defined.

Lemma resolve_file_stages_what_it_writes_witness :
  exists before content,
    st_trace (snd (@resolve_file sim_host "/repo" "notes/config.txt"
                     (@initial_state sim_host sim_conflicted)))
    = st_trace (@initial_state sim_host sim_conflicted) ++ before
      ++ [WriteFile (path_join "/repo" "notes/config.txt") content;
          Git ["git"; "add"; "notes/config.txt"] (Some "/repo")].
Proof.
  apply (@resolve_file_stages_what_it_writes sim_host "/repo" "notes/config.txt"
           (@initial_state sim_host sim_conflicted)).
  vm_compute. reflexivity.
Defined.

Lemma resolve_all_conflicts_touches_conflicts_witness :
  exists events,
    st_trace (snd (@resolve_all_conflicts sim_host "/repo"
                     (@initial_state sim_host sim_conflicted)))
    = st_trace (snd (@detect_conflicts sim_host "/repo"
                       (@initial_state sim_host sim_conflicted)))
      ++ events
    /\ Forall (fun e => exists p,
                 In p ["README.md"; "server.js"; "notes/config.txt"]
                 /\ @touches "/repo" p e) events.
Proof.
  apply (@resolve_all_conflicts_touches_conflicts sim_host "/repo"
           (@initial_state sim_host sim_conflicted) _ _
           ["README.md"; "server.js"; "notes/config.txt"]
           (fst (@resolve_all_conflicts sim_host "/repo"
                   (@initial_state sim_host sim_conflicted)))).
  - vm_compute. reflexivity.
  - vm_compute. reflexivity.
Defined.

Lemma resolve_all_conflicts_success_iff_witness :
  @all_resolved sim_host "/repo" ["README.md"; "server.js"; "notes/config.txt"]
    (@advance sim_host
       (snd (@detect_conflicts sim_host "/repo" (@initial_state sim_host sim_conflicted)))
       sim_conflicted
       ["Found 3 conflict(s) to resolve:";
        "  - README.md"; "  - server.js"; "  - notes/config.txt"] []).
Proof.
  assert (@detect_conflicts sim_host "/repo" (@initial_state sim_host sim_conflicted)
          = (inr ["README.md"; "server.js"; "notes/config.txt"],
             snd (@detect_conflicts sim_host "/repo"
                    (@initial_state sim_host sim_conflicted)))) as Hdetect.
  { vm_compute. reflexivity. }
  assert (@resolve_all_conflicts sim_host "/repo" (@initial_state sim_host sim_conflicted)
          = (inr true,
             snd (@resolve_all_conflicts sim_host "/repo"
                    (@initial_state sim_host sim_conflicted)))) as Hresolve.
  { vm_compute. reflexivity. }
  exact (proj1 (@resolve_all_conflicts_success_iff sim_host "/repo" _ _ _ _ _
                  Hdetect Hresolve) eq_refl).
Defined.

